(** * XTTS long-form narration scripts: segmentation, synthesis loop, assembly

    A shallow embedding of the three scripts of the repository
    ([mac_cpu.py], [main2.py], [windows_cuda.py]) and the properties of
    their text segmenters, per-chunk synthesis loop and audio assembler. *)

From Stdlib Require Import ZArith List Bool Lia Ascii String DecimalString.
From Stdlib Require DecimalNat.
From stdpp Require Import gmap strings list fin_maps.
Import ListNotations.

Local Open Scope Z_scope.

(** ** Python strings

    A Python [str] is a sequence of Unicode code points. *)

Definition char := N.
Definition str := list char.

(** Code points of an ASCII literal, to write inputs readably. *)
Definition py (s : string) : str := List.map N_of_ascii (list_ascii_of_string s).

(** [len(s)] *)
Definition len {A} (s : list A) : Z := Z.of_nat (length s).

(** Truthiness of a string: [if s:] holds when [s] is not empty. *)
Definition truthy (s : str) : bool :=
  match s with [] => false | _ :: _ => true end.

(** [Py_UNICODE_ISSPACE]: the code points that both [str.strip()] and the
    regular-expression class [\s] (on [str] patterns) treat as whitespace. *)
Definition isspace (c : char) : bool :=
  ((0x09 <=? c) && (c <=? 0x0D) || (0x1C <=? c) && (c <=? 0x20)
   || (c =? 0x85) || (c =? 0xA0) || (c =? 0x1680)
   || (0x2000 <=? c) && (c <=? 0x200A)
   || (c =? 0x2028) || (c =? 0x2029) || (c =? 0x202F) || (c =? 0x205F)
   || (c =? 0x3000))%N.

Definition space : char := 0x20%N.

(** [s.lstrip()], [s.rstrip()], [s.strip()] *)
Fixpoint lstrip (s : str) : str :=
  match s with
  | [] => []
  | c :: rest => if isspace c then lstrip rest else s
  end.

Definition rstrip (s : str) : str := reverse (lstrip (reverse s)).

Definition strip (s : str) : str := rstrip (lstrip s).

(** The characters of [s] that are not whitespace, in order: what is left
    of a text once whitespace is disregarded. *)
Definition non_whitespace (s : str) : str :=
  List.filter (fun c => negb (isspace c)) s.

(** A string with no whitespace at either end. *)
Definition stripped (s : str) : Prop :=
  (forall c, head s = Some c -> isspace c = false) /\
  (forall c, last s = Some c -> isspace c = false).

(** ** The two regular-expression splits *)

(** The class [[.!?]]. *)
Definition is_terminal (c : char) : bool :=
  ((c =? 0x2E) || (c =? 0x21) || (c =? 0x3F))%N.

(** The alternation [,|;|:]. *)
Definition is_clause_delim (c : char) : bool :=
  ((c =? 0x2C) || (c =? 0x3B) || (c =? 0x3A))%N.

Definition starts_with_space (s : str) : bool :=
  match s with [] => false | c :: _ => isspace c end.

(** [re.split(r'(?<=[.!?])\s+', text)].

    A match is a maximal run of whitespace whose preceding character is
    one of [.!?]; the pieces between matches are returned, the matched
    whitespace is not.  [in_match] is set while the scan is inside such a
    run, [piece] is the piece collected so far. *)
Fixpoint re_split_sentences_from (in_match : bool) (piece : str) (text : str)
  : list str :=
  match text with
  | [] => [piece]
  | c :: rest =>
      if in_match && isspace c then re_split_sentences_from true piece rest
      else if is_terminal c && starts_with_space rest
           then (piece ++ [c]) :: re_split_sentences_from true [] rest
           else re_split_sentences_from false (piece ++ [c]) rest
  end.

Definition re_split_sentences (text : str) : list str :=
  re_split_sentences_from false [] text.

(** Whether [s] holds a sentence end: one of [.!?] with whitespace right
    after it, the place where the sentence pattern matches. *)
Fixpoint has_sentence_end (s : str) : bool :=
  match s with
  | [] => false
  | c :: rest => is_terminal c && starts_with_space rest || has_sentence_end rest
  end.

(** [re.split(r'(,|;|:)', sentence)]: the pattern is a capturing group, so
    each delimiter is itself an element of the result, between the pieces
    it separates. *)
Fixpoint re_split_clauses_from (piece : str) (sentence : str) : list str :=
  match sentence with
  | [] => [piece]
  | c :: rest =>
      if is_clause_delim c
      then piece :: [c] :: re_split_clauses_from [] rest
      else re_split_clauses_from (piece ++ [c]) rest
  end.

Definition re_split_clauses (sentence : str) : list str :=
  re_split_clauses_from [] sentence.

(** ** Segmenters *)

(** The two loop variables of a segmenter: the finished [chunks] and the
    accumulating [current_chunk]. *)
Record chunker := Chunker { chunks : list str; current_chunk : str }.

Definition chunker_init : chunker := Chunker [] [].

(** [chunks.append(current_chunk.strip())] followed by
    [current_chunk = next]. *)
Definition flush_and_restart (st : chunker) (next : str) : chunker :=
  Chunker (chunks st ++ [strip (current_chunk st)]) next.

(** Body of the inner [for clause in clauses] loop of [smart_chunk_text]. *)
Definition clause_step (max_chunk_size : Z) (st : chunker) (clause : str)
  : chunker :=
  if len (current_chunk st) + len clause + 1 <=? max_chunk_size
  then Chunker (chunks st) (current_chunk st ++ clause)
  else flush_and_restart st clause.

(** Body of the [for sentence in sentences] loop of [smart_chunk_text]. *)
Definition sentence_step (max_chunk_size : Z) (st : chunker) (sentence : str)
  : chunker :=
  if negb (truthy (strip sentence)) then st
  else if len (current_chunk st) + len sentence + 1 <=? max_chunk_size
  then Chunker (chunks st) (current_chunk st ++ sentence ++ [space])
  else if len sentence >? max_chunk_size
  then fold_left (clause_step max_chunk_size) (re_split_clauses sentence) st
  else flush_and_restart st (sentence ++ [space]).

(** The closing [if current_chunk: chunks.append(current_chunk.strip())]. *)
Definition final_flush (st : chunker) : list str :=
  if truthy (current_chunk st)
  then chunks st ++ [strip (current_chunk st)]
  else chunks st.

(** [smart_chunk_text(text, max_chunk_size)] of [mac_cpu.py] and
    [main2.py] (the two bodies are the same; the default budgets are 2400
    and 2000). *)
Definition smart_chunk_text (text : str) (max_chunk_size : Z) : list str :=
  final_flush
    (fold_left (sentence_step max_chunk_size) (re_split_sentences text)
       chunker_init).

(** A tokenizer, as far as the scripts use one: [tokenizer.encode]. *)
Definition token := N.
Definition tokenizer := str -> list token.

(** Body of the loop of [smart_chunk_text_token_limit]. *)
Definition token_step (encode : tokenizer) (max_tokens : Z)
  (st : chunker) (sentence : str) : chunker :=
  let temp_chunk := strip (current_chunk st ++ [space] ++ sentence) in
  let token_count := len (encode temp_chunk) in
  if token_count <=? max_tokens
  then Chunker (chunks st) temp_chunk
  else Chunker (if truthy (current_chunk st)
                then chunks st ++ [strip (current_chunk st)]
                else chunks st)
               sentence.

(** [smart_chunk_text_token_limit(text, max_tokens)] of [windows_cuda.py];
    the global [tokenizer] is passed in. *)
Definition smart_chunk_text_token_limit (encode : tokenizer)
  (text : str) (max_tokens : Z) : list str :=
  final_flush
    (fold_left (token_step encode max_tokens) (re_split_sentences text)
       chunker_init).

(** A stand-in tokenizer for concrete runs: one token per code point,
    wrapped in a language-code token and an end-of-sequence token, the
    way the MBart-50 tokenizer frames its output (so the empty string
    encodes to two tokens). *)
Definition framed_char_tokenizer : tokenizer :=
  fun s => 250004%N :: s ++ [2%N].

(** ** Chunk file names *)

Fixpoint zeros (n : nat) : string :=
  match n with O => EmptyString | S n' => String "0" (zeros n') end.

(** The format [{i:04d}]: decimal, zero-padded to four digits. *)
Definition format_04d (i : nat) : string :=
  let digits := NilZero.string_of_uint (Nat.to_uint i) in
  String.append (zeros (4 - String.length digits)) digits.

(** [f"{output_dir}/chunk_{i:04d}.wav"] *)
Definition chunk_file_name (output_dir : string) (i : nat) : string :=
  String.append output_dir
    (String.append "/chunk_" (String.append (format_04d i) ".wav")).

(** ** Audio, files and the outside world *)

(** What a [pydub.AudioSegment] holds: the raw samples and their format. *)
Record AudioSegment := Audio {
  raw_data : list Z;
  sample_width : Z;
  frame_rate : Z;
  channels : Z
}.

(** The part of pydub that the scripts call.  pydub is not part of the
    repository, and what it computes rests on resampling (segments of
    different formats are brought to a common one when they are added, a
    silence is built at 11025 Hz) and on rounding (a length is a rounded
    number of milliseconds); none of that is reproduced here: the library
    is a parameter of the assembler.  Its four operations are taken to
    return: on the segments the scripts build, none of them raises. *)
Record pydub := Pydub {
  AudioSegment_empty : AudioSegment;              (* AudioSegment.empty() *)
  AudioSegment_silent : Z -> AudioSegment;        (* AudioSegment.silent(duration=d) *)
  AudioSegment_add : AudioSegment -> AudioSegment -> AudioSegment;  (* a + b *)
  duration_ms : AudioSegment -> Z                 (* len(a), in milliseconds *)
}.

(** What a path can name: a text file, an audio file (held as the segment
    that decoding it gives), or a directory. *)
Inductive file :=
| TextFile (content : str)
| WavFile (audio : AudioSegment)
| Directory.

(** The exceptions that can occur, by the call that raises them. *)
Inductive exn :=
| SynthesisFailed      (* raised by the speech model in [tts.tts_to_file] *)
| CouldntDecode        (* raised by [AudioSegment.from_wav] *)
| CouldntRead          (* raised by [open(...).read()] *)
| CouldntWrite         (* OSError: a file cannot be opened for writing *)
| CouldntMakeDirs      (* OSError raised by [os.makedirs] *)
| SystemExit.          (* raised by [exit()] *)

(** What the scripts print, one constructor per kind of line. *)
Inductive message :=
| MsgProcessingChunk (k n : nat)            (* Processing chunk k/n *)
| MsgErrorProcessingChunk (i : nat) (e : exn)  (* Error processing chunk i: e *)
| MsgCombining                              (* Combining audio files... *)
| MsgErrorLoading (audio_file : string) (e : exn) (* Error loading f: e *)
| MsgFinalSaved (final_output : string)     (* Final audio saved as: f *)
| MsgStoryNotFound
| MsgSpeakerNotFound
| MsgProvideValidWav
| MsgGenerating                             (* Generating long-form TTS audio... *)
| MsgStoryCreated (final_audio : string)    (* Story audio successfully created: f *)
| MsgGenerationFailed.                      (* Audio generation failed. *)

(** The part of the machine the scripts act on: what each path names, and
    the lines printed so far.  Paths are kept as they are written: two
    spellings of one path are two keys, [..] and links are not resolved,
    and permissions are not represented. *)
Record world := World { fs : gmap string file; stdout : list message }.

Inductive outcome (A : Type) :=
| Returned (a : A)
| Raised (e : exn).
Arguments Returned {A} a.
Arguments Raised {A} e.

(** A Python computation: it runs in a world and either returns a value
    or raises, and leaves a world behind in both cases. *)
Definition io (A : Type) : Type := world -> outcome A * world.

#[export] Instance io_ret : MRet io := fun A a w => (Returned a, w).

#[export] Instance io_bind : MBind io := fun A B k m w =>
  match m w with
  | (Returned a, w') => k a w'
  | (Raised e, w') => (Raised e, w')
  end.

Definition raise {A} (e : exn) : io A := fun w => (Raised e, w).

(** [except Exception] catches everything but [SystemExit]. *)
Definition is_Exception (e : exn) : bool :=
  match e with SystemExit => false | _ => true end.

(** [try: body / except Exception as e: handler e] *)
Definition try_except {A} (body : io A) (handler : exn -> io A) : io A :=
  fun w =>
    match body w with
    | (Returned a, w') => (Returned a, w')
    | (Raised e, w') => if is_Exception e then handler e w' else (Raised e, w')
    end.

Definition print (m : message) : io unit :=
  fun w => (Returned tt, World (fs w) (stdout w ++ [m])).

(** [exit()] *)
Definition exit : io unit := raise SystemExit.

(** [os.path.exists(path)] *)
Definition path_exists (path : string) : io bool :=
  fun w => (Returned (bool_decide (is_Some (fs w !! path))), w).

(** [open(path, "r", encoding="utf-8").read()] *)
Definition read_text (path : string) : io str :=
  fun w =>
    match fs w !! path with
    | Some (TextFile content) => (Returned content, w)
    | _ => (Raised CouldntRead, w)
    end.

(** [AudioSegment.from_wav(path)] *)
Definition from_wav (path : string) : io AudioSegment :=
  fun w =>
    match fs w !! path with
    | Some (WavFile audio) => (Returned audio, w)
    | _ => (Raised CouldntDecode, w)
    end.

(** *** Directories and writing *)

Definition is_slash (c : ascii) : bool := Ascii.eqb c "/".

Fixpoint has_slash (s : string) : bool :=
  match s with
  | EmptyString => false
  | String c rest => is_slash c || has_slash rest
  end.

(** A path cut at its last [/]: what is before it and what is after it;
    a path without [/] has nothing before. *)
Fixpoint path_split (path : string) : string * string :=
  match path with
  | EmptyString => (EmptyString, EmptyString)
  | String c rest =>
      if has_slash rest
      then (String c (fst (path_split rest)), snd (path_split rest))
      else if is_slash c then (EmptyString, rest)
      else (EmptyString, String c rest)
  end.

Definition parent_dir (path : string) : string := fst (path_split path).
Definition base_name (path : string) : string := snd (path_split path).

(** Whether [path] names a directory: the current directory, written as
    the empty path or as [.], always is one. *)
Definition is_dir (files : gmap string file) (path : string) : bool :=
  bool_decide (path = EmptyString) || bool_decide (path = "."%string)
  || match files !! path with Some Directory => true | _ => false end.

(** Whether a file can be opened for writing at [path]: the path names
    something inside a directory that is there, and not a directory. *)
Definition can_write (files : gmap string file) (path : string) : bool :=
  negb (bool_decide (base_name path = EmptyString))
  && is_dir files (parent_dir path)
  && negb (is_dir files path).

(** Writing a file, as [open(path, "wb")] and what follows do. *)
Definition write_file (path : string) (content : file) : io unit :=
  fun w =>
    if can_write (fs w) path
    then (Returned tt, World (<[path := content]> (fs w)) (stdout w))
    else (Raised CouldntWrite, w).

(** [segment.export(path, format="wav")] *)
Definition export (segment : AudioSegment) (path : string) : io unit :=
  write_file path (WavFile segment).

(** The prefixes of a path that end just before one of its [/]. *)
Fixpoint slash_prefixes (before : string) (s : string) : list string :=
  match s with
  | EmptyString => []
  | String c rest =>
      if is_slash c
      then before :: slash_prefixes (String.append before (String c EmptyString)) rest
      else slash_prefixes (String.append before (String c EmptyString)) rest
  end.

(** The directories [os.makedirs(path)] goes through, outermost first. *)
Definition dir_chain (path : string) : list string :=
  slash_prefixes EmptyString path ++ [path].

(** Making each directory of a chain that is not there yet; something
    else in the place of one of them stops the call. *)
Fixpoint make_chain (dirs : list string) (files : gmap string file)
  : outcome unit * gmap string file :=
  match dirs with
  | [] => (Returned tt, files)
  | d :: rest =>
      if is_dir files d then make_chain rest files
      else match files !! d with
           | Some _ => (Raised CouldntMakeDirs, files)
           | None => make_chain rest (<[d := Directory]> files)
           end
  end.

Definition makedirs_files (path : string) (files : gmap string file)
  : outcome unit * gmap string file :=
  if bool_decide (path = EmptyString) then (Raised CouldntMakeDirs, files)
  else make_chain (dir_chain path) files.

(** [os.makedirs(path, exist_ok=True)] *)
Definition makedirs (path : string) : io unit :=
  fun w =>
    (fst (makedirs_files path (fs w)),
     World (snd (makedirs_files path (fs w))) (stdout w)).

(** The speech model is outside the repository.  [synthesizer] stands for
    it: [render n text] is what the [n]-th call, on [text], produces, the
    audio or [None] when the model raises. *)
Definition synthesizer := nat -> str -> option AudioSegment.

(** [tts.tts_to_file(text=..., file_path=..., speaker_wav=..., language="en")],
    as the [n]-th call: the model renders, then the audio is written. *)
Definition tts_to_file (render : synthesizer) (n : nat)
  (text : str) (file_path : string) : io unit :=
  fun w =>
    match render n text with
    | Some audio => write_file file_path (WavFile audio) w
    | None => (Raised SynthesisFailed, w)
    end.

(** ** The synthesis loop *)

(** What differs between the three scripts. *)
Record script := Script {
  segment : str -> list str;    (* the segmenter call of [generate_long_audio] *)
  silence_ms : Z;               (* the silence appended after a chunk *)
  announces_story : bool        (* whether the entry point prints the final path *)
}.

Definition mac_cpu : script :=
  Script (fun text => smart_chunk_text text 2400) 500 true.

Definition main2 : script :=
  Script (fun text => smart_chunk_text text 2000) 500 false.

Definition windows_cuda (encode : tokenizer) : script :=
  Script (fun text => smart_chunk_text_token_limit encode text 400) 400 false.

(** The loop [for i, chunk in enumerate(chunks)] of [generate_long_audio],
    from index [i] on, with [audio_files] as collected so far; [total] is
    [len(chunks)].  ([gc.collect()] has no effect on the modelled world.) *)
Fixpoint synthesis_loop (render : synthesizer) (output_dir : string)
  (total : nat) (i : nat) (chunks : list str) (audio_files : list string)
  : io (list string) :=
  match chunks with
  | [] => mret audio_files
  | chunk :: rest =>
      print (MsgProcessingChunk (i + 1) total);;
      let chunk_file := chunk_file_name output_dir i in
      audio_files' ←
        try_except
          (tts_to_file render i chunk chunk_file;;
           mret (audio_files ++ [chunk_file]))
          (fun e => print (MsgErrorProcessingChunk i e);; mret audio_files);
      synthesis_loop render output_dir total (S i) rest audio_files'
  end.

(** [generate_long_audio(text, speaker_wav_path, output_dir)] *)
Definition generate_long_audio (cfg : script) (render : synthesizer)
  (text : str) (speaker_wav_path : string) (output_dir : string)
  : io (list string) :=
  makedirs output_dir;;
  let chunks := segment cfg text in
  synthesis_loop render output_dir (length chunks) 0 chunks [].

(** ** Assembly *)

(** The loop [for audio_file in audio_files] of [combine_audio_files]. *)
Fixpoint combine_loop (lib : pydub) (silence : Z) (audio_files : list string)
  (combined : AudioSegment) : io AudioSegment :=
  match audio_files with
  | [] => mret combined
  | audio_file :: rest =>
      combined' ←
        try_except
          (audio ← from_wav audio_file;
           mret (AudioSegment_add lib combined
                   (AudioSegment_add lib audio (AudioSegment_silent lib silence))))
          (fun e => print (MsgErrorLoading audio_file e);; mret combined);
      combine_loop lib silence rest combined'
  end.

(** [combine_audio_files(audio_files, final_output)] *)
Definition combine_audio_files (lib : pydub) (silence : Z)
  (audio_files : list string) (final_output : string) : io string :=
  print MsgCombining;;
  combined ← combine_loop lib silence audio_files (AudioSegment_empty lib);
  export combined final_output;;
  print (MsgFinalSaved final_output);;
  mret final_output.

(** ** Entry point *)

Definition story_file_path : string := "./story.txt".
Definition speaker_voice_wav : string := "./Sample.wav".
Definition final_story : string := "futuristic_story.wav".

(** The [if __name__ == "__main__":] block. *)
Definition main (cfg : script) (lib : pydub) (render : synthesizer) : io unit :=
  story_exists ← path_exists story_file_path;
  (if negb story_exists then print MsgStoryNotFound;; exit else mret tt);;
  speaker_exists ← path_exists speaker_voice_wav;
  (if negb speaker_exists
   then print MsgSpeakerNotFound;; print MsgProvideValidWav;; exit
   else mret tt);;
  story_text ← read_text story_file_path;
  print MsgGenerating;;
  story_chunks ←
    generate_long_audio cfg render story_text speaker_voice_wav "story_chunks";
  match story_chunks with
  | _ :: _ =>
      final_audio ←
        combine_audio_files lib (silence_ms cfg) story_chunks final_story;
      if announces_story cfg then print (MsgStoryCreated final_audio) else mret tt
  | [] => print MsgGenerationFailed
  end.

(** ** Vocabulary of the properties *)

(** The figure the specification gives for the assembled track: the
    durations of the artifacts and one gap between each two neighbours. *)
Definition spec_track_duration (durations : list Z) (gap_duration : Z) : Z :=
  fold_right Z.add 0 durations + (len durations - 1) * gap_duration.

(** An item of the clause split: a delimiter on its own, or a piece free
    of delimiters. *)
Definition clause_item (item : str) : Prop :=
  (exists d, is_clause_delim d = true /\ item = [d]) \/
  Forall (fun c => is_clause_delim c = false) item.

(** The text handed over so far: the finished chunks and the accumulator,
    end to end. *)
Definition flat (st : chunker) : str := concat (chunks st) ++ current_chunk st.

(** [u] is a single clause, itself over the budget under the measure
    [size], of one of the sentences of [text]. *)
Definition from_oversized_clause (size : str -> Z) (text : str) (M : Z)
  (u : str) : Prop :=
  exists sentence clause,
    sentence ∈ re_split_sentences text /\
    clause ∈ re_split_clauses sentence /\
    M < size clause /\ u = strip clause.

(** [u] is a single sentence of [text], itself over the budget under the
    measure [size]. *)
Definition from_oversized_sentence (size : str -> Z) (text : str) (M : Z)
  (u : str) : Prop :=
  exists sentence,
    sentence ∈ re_split_sentences text /\
    M < size (strip sentence) /\ u = strip sentence.

(** The size of a unit under the token budget. *)
Definition token_count (encode : tokenizer) (s : str) : Z := len (encode s).

Definition whitespace_only (text : str) : Prop :=
  Forall (fun c => isspace c = true) text.

(** What the character-budget segmenter may emit on [text] under the
    budget [M]: a unit within the budget, or a single oversized clause. *)
Definition char_unit_ok (text : str) (M : Z) (u : str) : Prop :=
  len u <= M \/ from_oversized_clause len text M u.

Definition char_bound_inv (text : str) (M : Z) (st : chunker) : Prop :=
  Forall (char_unit_ok text M) (chunks st) /\
  char_unit_ok text M (strip (current_chunk st)).

(** What the token-budget segmenter may emit: a unit within the budget, or
    a single oversized sentence. *)
Definition token_unit_ok (encode : tokenizer) (text : str) (M : Z) (u : str)
  : Prop :=
  token_count encode u <= M \/
  from_oversized_sentence (token_count encode) text M u.

Definition token_bound_inv (encode : tokenizer) (text : str) (M : Z)
  (st : chunker) : Prop :=
  Forall (token_unit_ok encode text M) (chunks st) /\
  (truthy (current_chunk st) = true ->
   token_unit_ok encode text M (strip (current_chunk st))).

(** A unit emitted while the clauses of a sentence are packed, starting
    from the state [start]: the accumulator as it stood before, or a unit
    within the budget, or one clause that is itself over the budget. *)
Definition clause_unit_ok (M : Z) (start : chunker) (clauses : list str)
  (u : str) : Prop :=
  u = strip (current_chunk start) \/ len u <= M \/
  exists clause, clause ∈ clauses /\ M < len clause /\ u = strip clause.

(** An accumulator of the clause loop: within the budget, or one clause
    that is itself over the budget. *)
Definition clause_acc_ok (M : Z) (clauses : list str) (cur : str) : Prop :=
  len cur <= M \/ (cur ∈ clauses /\ M < len cur).

Definition clause_loop_inv (M : Z) (start : chunker) (clauses : list str)
  (st : chunker) : Prop :=
  (exists new, chunks st = chunks start ++ new /\
               Forall (clause_unit_ok M start clauses) new) /\
  (current_chunk st = current_chunk start \/
   clause_acc_ok M clauses (current_chunk st)).

(** What the [i]-th synthesis call, on the unit [u], comes to when the
    files are [files]: the audio, or the exception of the model or of the
    write. *)
Definition attempt (render : synthesizer) (output_dir : string)
  (files : gmap string file) (i : nat) (u : str) : outcome AudioSegment :=
  match render i u with
  | None => Raised SynthesisFailed
  | Some audio =>
      if can_write files (chunk_file_name output_dir i)
      then Returned audio else Raised CouldntWrite
  end.

(** The last component of a chunk file name. *)
Definition chunk_base_name (i : nat) : string :=
  String.append "chunk_" (String.append (format_04d i) ".wav").

(** The indices, from [i] on, of the chunks whose synthesis succeeds. *)
Fixpoint survivors (att : nat -> str -> outcome AudioSegment) (i : nat)
  (chunks : list str) : list nat :=
  match chunks with
  | [] => []
  | chunk :: rest =>
      match att i chunk with
      | Returned _ => i :: survivors att (S i) rest
      | Raised _ => survivors att (S i) rest
      end
  end.

(** The audio of those chunks, in order. *)
Fixpoint rendered_audio (att : nat -> str -> outcome AudioSegment) (i : nat)
  (chunks : list str) : list AudioSegment :=
  match chunks with
  | [] => []
  | chunk :: rest =>
      match att i chunk with
      | Returned audio => audio :: rendered_audio att (S i) rest
      | Raised _ => rendered_audio att (S i) rest
      end
  end.

(** The files after a synthesis loop over [chunks], from index [i] on:
    one chunk file written per call that succeeds. *)
Fixpoint synthesized_files (att : nat -> str -> outcome AudioSegment)
  (output_dir : string) (i : nat) (chunks : list str)
  (files : gmap string file) : gmap string file :=
  match chunks with
  | [] => files
  | chunk :: rest =>
      synthesized_files att output_dir (S i) rest
        match att i chunk with
        | Returned audio =>
            <[chunk_file_name output_dir i := WavFile audio]> files
        | Raised _ => files
        end
  end.

(** The lines a synthesis loop prints. *)
Fixpoint synthesis_lines (att : nat -> str -> outcome AudioSegment)
  (total i : nat) (chunks : list str) : list message :=
  match chunks with
  | [] => []
  | chunk :: rest =>
      MsgProcessingChunk (i + 1) total
        :: match att i chunk with
           | Returned _ => synthesis_lines att total (S i) rest
           | Raised e =>
               MsgErrorProcessingChunk i e :: synthesis_lines att total (S i) rest
           end
  end.

Definition is_progress_line (m : message) : bool :=
  match m with MsgProcessingChunk _ _ => true | _ => false end.

Definition is_synthesis_error_line (m : message) : bool :=
  match m with MsgErrorProcessingChunk _ _ => true | _ => false end.

(** The artifacts, of those listed, that decode, in order. *)
Definition decoded (files : gmap string file) (audio_files : list string)
  : list AudioSegment :=
  omap (fun path => match files !! path with
                    | Some (WavFile audio) => Some audio
                    | _ => None
                    end) audio_files.

(** The lines printed for the artifacts that do not decode. *)
Definition decode_errors (files : gmap string file) (audio_files : list string)
  : list message :=
  omap (fun path => match files !! path with
                    | Some (WavFile audio) => None
                    | _ => Some (MsgErrorLoading path CouldntDecode)
                    end) audio_files.

(** One turn of the assembly loop on an artifact that decodes. *)
Definition append_padded (lib : pydub) (silence : Z)
  (combined audio : AudioSegment) : AudioSegment :=
  AudioSegment_add lib combined
    (AudioSegment_add lib audio (AudioSegment_silent lib silence)).

(** The track the assembler builds from the segments it could decode:
    each is followed by the silence and added to what came before. *)
Definition assemble (lib : pydub) (silence : Z) (audios : list AudioSegment)
  : AudioSegment :=
  fold_left (append_padded lib silence) audios (AudioSegment_empty lib).

Definition total_duration (lib : pydub) (audios : list AudioSegment) : Z :=
  fold_right Z.add 0 (duration_ms lib <$> audios).

(** What "within rounding tolerance" rests on: each operation of the
    library keeps durations up to [tol] milliseconds.  The empty segment
    lasts nothing, a silence lasts what was asked for, and a sum lasts as
    long as its two parts together, each up to [tol]. *)
Record within_tolerance (lib : pydub) (tol : Z) : Prop := {
  tolerance_nonneg : 0 <= tol;
  empty_duration : duration_ms lib (AudioSegment_empty lib) = 0;
  silent_duration :
    forall d, 0 <= d ->
      Z.abs (duration_ms lib (AudioSegment_silent lib d) - d) <= tol;
  add_duration :
    forall a b,
      Z.abs (duration_ms lib (AudioSegment_add lib a b)
             - (duration_ms lib a + duration_ms lib b)) <= tol
}.

(** Greedy packing, as a property of the result: each group of clauses
    after the first starts with a clause that did not fit behind the
    accumulator closed before it ([prev]), and is that clause alone or a
    run of clauses that fits the budget together. *)
Fixpoint greedy_from (M : Z) (prev : str) (groups : list (list str)) : Prop :=
  match groups with
  | [] => True
  | g :: rest =>
      (exists c tail,
         g = c :: tail /\
         M < len prev + len c + 1 /\
         (tail = [] \/ len (concat g) + 1 <= M)) /\
      greedy_from M (concat g) rest
  end.

(** The accumulators that packing [clauses] greedily behind [cur] goes
    through, in order: [cur] with the longest run of clauses that fits
    behind it, then one accumulator for each later group. *)
Definition greedy_packing (M : Z) (cur : str) (clauses : list str)
  (accs : list str) : Prop :=
  exists g0 gs,
    clauses = g0 ++ concat gs /\
    (g0 = [] \/ len (cur ++ concat g0) + 1 <= M) /\
    greedy_from M (cur ++ concat g0) gs /\
    accs = (cur ++ concat g0) :: (@concat char <$> gs).

(** ** Vocabulary of the further properties *)

(** The number a string of decimal digits stands for, leading zeros
    allowed: what reading a formatted chunk index back gives. *)
Definition decimal_value (s : string) : option nat :=
  option_map Nat.of_uint (NilEmpty.uint_of_string s).

(** A sentence that is not blank. *)
Definition nonblank (s : str) : Prop := non_whitespace s <> [].

(** The sum over the sentences of their length plus one: the room they
    take when each is followed by a space. *)
Definition packed_len (sentences : list str) : Z :=
  fold_right (fun s acc => len s + 1 + acc) 0 sentences.

(** The sentences that are not blank, each followed by a space, end to
    end. *)
Definition joined (sentences : list str) : str :=
  concat ((fun s => s ++ [space])
            <$> List.filter (fun s => truthy (strip s)) sentences).

(** A sentence that ends in one of [.!?]. *)
Definition ends_with_terminal (s : str) : Prop :=
  exists t, last s = Some t /\ is_terminal t = true.

(** A unit as the character-budget segmenter emits it when no sentence
    is too long: not blank, and shorter than the budget. *)
Definition short_unit (M : Z) (u : str) : Prop := nonblank u /\ len u < M.

(** The accumulator in that case: empty, or not blank, closed by the
    separating space and within the budget. *)
Definition short_acc (M : Z) (cur : str) : Prop :=
  cur = [] \/ exists x, cur = x ++ [space] /\ nonblank x /\ len cur <= M.

(** [s] lies whole, as one run of characters, inside [u]. *)
Definition occurs_in (s u : str) : Prop := exists a b, u = a ++ s ++ b.

(** The trimmed sentence [s] lies whole inside a finished chunk or inside
    the accumulator. *)
Definition kept_whole (st : chunker) (s : str) : Prop :=
  (exists u, u ∈ chunks st /\ occurs_in (strip s) u) \/
  occurs_in (strip s) (current_chunk st).

(** ** Inputs of the concrete runs *)

(** A library without any rounding: one sample per millisecond, whatever
    the format says, and a sum that puts the samples end to end. *)
Definition ideal_pydub : pydub :=
  Pydub (Audio [] 1 1 1)
        (fun d => Audio (repeat 0 (Z.to_nat d)) 2 11025 1)
        (fun a b => Audio (raw_data a ++ raw_data b)
                      (sample_width b) (frame_rate b) (channels b))
        (fun a => len (raw_data a)).

(** A library that loses up to a millisecond: like the one above, but
    every silence comes out one millisecond short. *)
Definition short_gap_pydub : pydub :=
  Pydub (Audio [] 1 1 1)
        (fun d => Audio (repeat 0 (Z.to_nat (d - 1))) 2 11025 1)
        (fun a b => Audio (raw_data a ++ raw_data b)
                      (sample_width b) (frame_rate b) (channels b))
        (fun a => len (raw_data a)).

(** A clip of the given samples, as the speech model writes it. *)
Definition clip (samples : list Z) : AudioSegment := Audio samples 2 24000 1.

(** A machine with one synthesized chunk of 1000 samples on disk. *)
Definition one_chunk_world : world :=
  World {[ "story_chunks"%string := Directory;
           "story_chunks/chunk_0000.wav"%string := WavFile (clip (repeat 7 1000)) ]}
        [].

(** A machine with two synthesized chunks on disk. *)
Definition two_chunk_world : world :=
  World {[ "story_chunks"%string := Directory;
           "story_chunks/chunk_0000.wav"%string := WavFile (clip [1; 2; 3]);
           "story_chunks/chunk_0001.wav"%string := WavFile (clip [4; 5]) ]} [].

(** A machine with nothing on disk. *)
Definition empty_world : world := World ∅ [].

(** A machine with a story and a voice sample, ready for a run. *)
Definition story_world : world :=
  World {[ story_file_path := TextFile (py "One. Two. Three. Four. Five.");
           speaker_voice_wav := WavFile (clip [0; 0; 0]) ]} [].

(** The same machine, with a regular file where the chunk directory is to
    be. *)
Definition file_in_the_way_world : world :=
  World {[ story_file_path := TextFile (py "One. Two. Three. Four. Five.");
           speaker_voice_wav := WavFile (clip [0; 0; 0]);
           "story_chunks"%string := TextFile (py "notes") ]} [].

(** A script with a budget small enough to make one unit per sentence of
    the story above. *)
Definition tiny_budget : script :=
  Script (fun text => smart_chunk_text text 6) 500 false.

(** A synthesizer that fails on its third call only. *)
Definition fails_on_third : synthesizer :=
  fun n text => if Nat.eqb n 2 then None else Some (clip (Z.of_N <$> text)).

(** A synthesizer that never fails. *)
Definition never_fails : synthesizer :=
  fun n text => Some (clip (Z.of_N <$> text)).

(** A synthesizer that always fails. *)
Definition always_fails : synthesizer := fun _ _ => None.

(** A machine with a story but no voice sample. *)
Definition no_speaker_world : world :=
  World {[ story_file_path := TextFile (py "One. Two.") ]} [].

(** A machine whose story file holds three spaces. *)
Definition blank_story_world : world :=
  World {[ story_file_path := TextFile (py "   ");
           speaker_voice_wav := WavFile (clip [0; 0; 0]) ]} [].

(** * Properties *)

(** ** Strings *)

Lemma len_app {A} (s t : list A) : len (s ++ t) = len s + len t.
Proof. unfold len. rewrite length_app. lia. Qed.

Lemma len_nonneg {A} (s : list A) : 0 <= len s.
Proof. unfold len. lia. Qed.

Lemma lstrip_suffix (s : str) : exists p, s = p ++ lstrip s.
Proof.
  induction s as [|c s [p Hp]]; simpl.
  - by exists [].
  - destruct (isspace c).
    + exists (c :: p). simpl. by f_equal.
    + by exists [].
Qed.

Lemma rstrip_prefix (s : str) : exists q, s = rstrip s ++ q.
Proof.
  unfold rstrip. destruct (lstrip_suffix (reverse s)) as [p Hp].
  exists (reverse p).
  rewrite <- reverse_app, <- Hp. by rewrite reverse_involutive.
Qed.

Lemma lstrip_length (s : str) : len (lstrip s) <= len s.
Proof.
  destruct (lstrip_suffix s) as [p Hp]. rewrite Hp at 2.
  rewrite len_app. pose proof (len_nonneg p). lia.
Qed.

Lemma rstrip_length (s : str) : len (rstrip s) <= len s.
Proof.
  destruct (rstrip_prefix s) as [q Hq]. rewrite Hq at 2.
  rewrite len_app. pose proof (len_nonneg q). lia.
Qed.

Lemma strip_length (s : str) : len (strip s) <= len s.
Proof.
  unfold strip. pose proof (rstrip_length (lstrip s)).
  pose proof (lstrip_length s). lia.
Qed.

Lemma lstrip_head (s : str) c : head (lstrip s) = Some c -> isspace c = false.
Proof.
  induction s as [|a s IH]; simpl; [done|].
  destruct (isspace a) eqn:Ha; [done|]. simpl. by intros [= <-].
Qed.

Lemma rstrip_last (s : str) c : last (rstrip s) = Some c -> isspace c = false.
Proof. unfold rstrip. rewrite last_reverse. apply lstrip_head. Qed.

Lemma rstrip_head (s : str) c :
  head (rstrip s) = Some c -> head s = Some c.
Proof.
  destruct (rstrip_prefix s) as [q Hq]. intros H. rewrite Hq.
  destruct (rstrip s); [done|]. done.
Qed.

Lemma strip_stripped (s : str) : stripped (strip s).
Proof.
  split; intros c H.
  - apply rstrip_head in H. by apply lstrip_head in H.
  - by apply rstrip_last in H.
Qed.

Lemma lstrip_fixed (s : str) :
  (forall c, head s = Some c -> isspace c = false) -> lstrip s = s.
Proof. destruct s as [|a s]; simpl; [done|]. intros H. by rewrite (H a). Qed.

Lemma rstrip_fixed (s : str) :
  (forall c, last s = Some c -> isspace c = false) -> rstrip s = s.
Proof.
  intros H. unfold rstrip. rewrite lstrip_fixed.
  - apply reverse_involutive.
  - intros c. rewrite head_reverse. apply H.
Qed.

Lemma stripped_fixed (s : str) : stripped s -> strip s = s.
Proof.
  intros [Hh Hl]. unfold strip. rewrite (lstrip_fixed s Hh). by apply rstrip_fixed.
Qed.

Lemma strip_idemp (s : str) : strip (strip s) = strip s.
Proof. apply stripped_fixed, strip_stripped. Qed.

Lemma rstrip_snoc_space (s : str) c :
  isspace c = true -> rstrip (s ++ [c]) = rstrip s.
Proof. intros H. unfold rstrip. rewrite reverse_snoc. simpl. by rewrite H. Qed.

Lemma strip_snoc_space (s : str) c :
  isspace c = true -> strip (s ++ [c]) = strip s.
Proof.
  intros H. unfold strip. induction s as [|a s IH]; simpl.
  - by rewrite H.
  - destruct (isspace a); [done|].
    by apply (rstrip_snoc_space (a :: s) c).
Qed.

Lemma lstrip_all_space (s : str) :
  Forall (fun c => isspace c = true) s -> lstrip s = [].
Proof. induction 1 as [|c s Hc _ IH]; simpl; [done|]. by rewrite Hc. Qed.

Lemma strip_all_space (s : str) :
  Forall (fun c => isspace c = true) s -> strip s = [].
Proof. intros H. unfold strip. by rewrite (lstrip_all_space s H). Qed.

Lemma non_whitespace_app (s t : str) :
  non_whitespace (s ++ t) = non_whitespace s ++ non_whitespace t.
Proof. apply List.filter_app. Qed.

Lemma non_whitespace_cons (c : char) (s : str) :
  non_whitespace (c :: s) = non_whitespace [c] ++ non_whitespace s.
Proof. apply (non_whitespace_app [c] s). Qed.

Lemma non_whitespace_space (c : char) :
  isspace c = true -> non_whitespace [c] = [].
Proof. intros H. unfold non_whitespace. simpl. by rewrite H. Qed.

Lemma non_whitespace_lstrip (s : str) :
  non_whitespace (lstrip s) = non_whitespace s.
Proof.
  induction s as [|c s IH]; simpl; [done|].
  destruct (isspace c) eqn:Hc; simpl; [done|]. by rewrite Hc.
Qed.

Lemma non_whitespace_reverse (s : str) :
  non_whitespace (reverse s) = reverse (non_whitespace s).
Proof.
  induction s as [|c s IH]; [done|].
  rewrite reverse_cons, non_whitespace_app, IH. simpl.
  destruct (isspace c); simpl.
  - by rewrite app_nil_r.
  - by rewrite reverse_cons.
Qed.

Lemma non_whitespace_strip (s : str) :
  non_whitespace (strip s) = non_whitespace s.
Proof.
  unfold strip, rstrip.
  rewrite non_whitespace_reverse, non_whitespace_lstrip,
    non_whitespace_reverse, reverse_involutive.
  apply non_whitespace_lstrip.
Qed.

(** ** The regular-expression splits *)

Lemma space_not_terminal (c : char) : isspace c = true -> is_terminal c = false.
Proof.
  intros H. unfold is_terminal.
  destruct (N.eqb_spec c 0x2E) as [->|]; [done|].
  destruct (N.eqb_spec c 0x21) as [->|]; [done|].
  destruct (N.eqb_spec c 0x3F) as [->|]; done.
Qed.

(** The scan agrees with the pattern: without a sentence end there is no
    match, and the text is returned as it is. *)
Lemma re_split_sentences_from_no_match (piece text : str) :
  has_sentence_end text = false ->
  re_split_sentences_from false piece text = [piece ++ text].
Proof.
  revert piece. induction text as [|c rest IH]; intros piece H; simpl in *.
  - by rewrite app_nil_r.
  - apply orb_false_iff in H as [-> Hrest].
    by rewrite IH, <- app_assoc.
Qed.

Lemma re_split_sentences_from_in_match (piece ws rest : str) :
  Forall (fun c => isspace c = true) ws ->
  starts_with_space rest = false ->
  re_split_sentences_from true piece (ws ++ rest)
  = re_split_sentences_from false piece rest.
Proof.
  intros Hws Hrest. induction Hws as [|c ws Hc _ IH]; simpl.
  - destruct rest as [|c rest]; [done|]. simpl in *. by rewrite Hrest.
  - by rewrite Hc.
Qed.

Lemma re_split_sentences_from_first_match (piece before ws rest : str)
  (t w : char) :
  has_sentence_end (before ++ [t]) = false ->
  is_terminal t = true ->
  Forall (fun c => isspace c = true) (w :: ws) ->
  starts_with_space rest = false ->
  re_split_sentences_from false piece (before ++ [t] ++ (w :: ws) ++ rest)
  = (piece ++ before ++ [t]) :: re_split_sentences_from false [] rest.
Proof.
  intros Hbefore Ht Hws Hrest. revert piece.
  induction before as [|c before IH]; intros piece.
  - cbn [app re_split_sentences_from]. rewrite Ht.
    pose proof (Forall_inv Hws) as Hw. cbn beta in Hw.
    cbn [starts_with_space andb]. rewrite Hw.
    by rewrite (re_split_sentences_from_in_match [] ws rest
                  (Forall_inv_tail Hws) Hrest).
  - cbn [app has_sentence_end] in Hbefore.
    apply orb_false_iff in Hbefore as [Hc Hbefore].
    cbn [app re_split_sentences_from].
    assert (starts_with_space (before ++ t :: w :: ws ++ rest)
            = starts_with_space (before ++ [t])) as ->.
    { by destruct before. }
    rewrite Hc. cbn [app] in IH. rewrite (IH Hbefore). by rewrite <- app_assoc.
Qed.

(** The leftmost match: the text up to and including the first of [.!?]
    that has whitespace after it is the first piece, all of that
    whitespace is dropped, and the split goes on behind it. *)
Lemma re_split_sentences_first_match (before ws rest : str) (t w : char) :
  has_sentence_end (before ++ [t]) = false ->
  is_terminal t = true ->
  Forall (fun c => isspace c = true) (w :: ws) ->
  starts_with_space rest = false ->
  re_split_sentences (before ++ [t] ++ (w :: ws) ++ rest)
  = (before ++ [t]) :: re_split_sentences rest.
Proof.
  intros. unfold re_split_sentences.
  by rewrite re_split_sentences_from_first_match.
Qed.

(** Splitting into sentences only removes whitespace. *)
Lemma re_split_sentences_from_non_whitespace (in_match : bool) (piece text : str) :
  non_whitespace (concat (re_split_sentences_from in_match piece text))
  = non_whitespace piece ++ non_whitespace text.
Proof.
  revert in_match piece.
  induction text as [|c rest IH]; intros in_match piece.
  - simpl. by rewrite !app_nil_r.
  - rewrite (non_whitespace_cons c rest). cbn [re_split_sentences_from].
    destruct (in_match && isspace c) eqn:Hskip.
    + apply andb_true_iff in Hskip as [_ Hc].
      by rewrite IH, (non_whitespace_space c Hc).
    + destruct (is_terminal c && starts_with_space rest); cbn [concat].
      * rewrite non_whitespace_app, IH, non_whitespace_app.
        change (non_whitespace []) with (@nil char).
        by rewrite <- app_assoc.
      * by rewrite IH, non_whitespace_app, <- app_assoc.
Qed.

Lemma re_split_sentences_non_whitespace (text : str) :
  non_whitespace (concat (re_split_sentences text)) = non_whitespace text.
Proof. apply re_split_sentences_from_non_whitespace. Qed.

(** A text without sentence ends is one sentence. *)
Lemma re_split_sentences_from_all_space (piece text : str) :
  Forall (fun c => isspace c = true) text ->
  re_split_sentences_from false piece text = [piece ++ text].
Proof.
  intros H. revert piece.
  induction H as [|c rest Hc _ IH]; intros piece; simpl.
  - by rewrite app_nil_r.
  - rewrite (space_not_terminal c Hc). simpl.
    rewrite IH, <- app_assoc. done.
Qed.

(** The clause split loses nothing: the items, delimiters included, put
    back together are the sentence. *)
Lemma re_split_clauses_from_concat (piece sentence : str) :
  concat (re_split_clauses_from piece sentence) = piece ++ sentence.
Proof.
  revert piece. induction sentence as [|c rest IH]; intros piece; simpl.
  - by rewrite !app_nil_r.
  - destruct (is_clause_delim c); simpl.
    + by rewrite IH.
    + by rewrite IH, <- app_assoc.
Qed.

Lemma re_split_clauses_concat (sentence : str) :
  concat (re_split_clauses sentence) = sentence.
Proof. apply re_split_clauses_from_concat. Qed.

Lemma re_split_clauses_from_items (piece sentence : str) :
  Forall (fun c => is_clause_delim c = false) piece ->
  Forall clause_item (re_split_clauses_from piece sentence).
Proof.
  revert piece. induction sentence as [|c rest IH]; intros piece Hp; simpl.
  - constructor; [by right | constructor].
  - destruct (is_clause_delim c) eqn:Hc.
    + constructor; [by right|].
      constructor; [left; by exists c|]. apply IH. constructor.
    + apply IH. apply Forall_app. split; [done|]. by constructor.
Qed.

Lemma re_split_clauses_items (sentence : str) :
  Forall clause_item (re_split_clauses sentence).
Proof. apply re_split_clauses_from_items. constructor. Qed.

(** ** Loop invariants *)

Lemma fold_left_invariant {A B} (I : A -> Prop) (f : A -> B -> A)
  (l : list B) (a : A) :
  I a -> (forall a x, x ∈ l -> I a -> I (f a x)) -> I (fold_left f l a).
Proof.
  revert a. induction l as [|x l IH]; intros a Ha Hstep; simpl; [done|].
  apply IH.
  - apply Hstep; [left | done].
  - intros a' y Hy. apply Hstep. by right.
Qed.

(** *** Every unit is stripped *)

Lemma final_flush_Forall (P : str -> Prop) (st : chunker) :
  Forall P (chunks st) -> P (strip (current_chunk st)) ->
  Forall P (final_flush st).
Proof.
  intros Hc Hcur. unfold final_flush.
  destruct (truthy (current_chunk st)); [|done].
  apply Forall_app. split; [done|]. by constructor.
Qed.

Lemma flush_and_restart_Forall (P : str -> Prop) (st : chunker) (next : str) :
  Forall P (chunks st) -> P (strip (current_chunk st)) ->
  Forall P (chunks (flush_and_restart st next)).
Proof.
  intros Hc Hcur. simpl. apply Forall_app. split; [done|]. by constructor.
Qed.

Lemma clause_step_stripped M st clause :
  Forall stripped (chunks st) -> Forall stripped (chunks (clause_step M st clause)).
Proof.
  intros H. unfold clause_step.
  destruct (_ <=? _); [done|].
  apply flush_and_restart_Forall; [done | apply strip_stripped].
Qed.

Lemma sentence_step_stripped M st sentence :
  Forall stripped (chunks st) ->
  Forall stripped (chunks (sentence_step M st sentence)).
Proof.
  intros H. unfold sentence_step.
  destruct (negb _); [done|].
  destruct (_ <=? _); [done|].
  destruct (_ >? _).
  - apply (fold_left_invariant (fun st => Forall stripped (chunks st))); [done|].
    intros st' c _. apply clause_step_stripped.
  - apply flush_and_restart_Forall; [done | apply strip_stripped].
Qed.

Lemma token_step_stripped encode M st sentence :
  Forall stripped (chunks st) ->
  Forall stripped (chunks (token_step encode M st sentence)).
Proof.
  intros H. unfold token_step. cbv zeta.
  destruct (_ <=? _); [done|]. simpl.
  destruct (truthy _); [|done].
  apply Forall_app. split; [done|]. constructor; [apply strip_stripped | done].
Qed.

(** C10. Every unit emitted by either segmenter, for every text, budget
    and tokenizer, has no whitespace at its start and none at its end:
    each chunk is stripped when it is appended. *)
Theorem units_are_stripped (encode : tokenizer) (text : str) (M : Z) :
  Forall stripped (smart_chunk_text text M) /\
  Forall stripped (smart_chunk_text_token_limit encode text M).
Proof.
  split.
  - apply final_flush_Forall; [|apply strip_stripped].
    apply (fold_left_invariant (fun st => Forall stripped (chunks st))).
    + constructor.
    + intros st s _. apply sentence_step_stripped.
  - apply final_flush_Forall; [|apply strip_stripped].
    apply (fold_left_invariant (fun st => Forall stripped (chunks st))).
    + constructor.
    + intros st s _. apply token_step_stripped.
Qed.

(** *** Nothing but whitespace is added or lost *)

Lemma flat_flush (st : chunker) (next : str) :
  non_whitespace (flat (flush_and_restart st next))
  = non_whitespace (flat st) ++ non_whitespace next.
Proof.
  unfold flat. simpl.
  rewrite concat_app. simpl. rewrite app_nil_r.
  rewrite !non_whitespace_app, non_whitespace_strip.
  by rewrite <- app_assoc.
Qed.

Lemma clause_step_flat M st clause :
  non_whitespace (flat (clause_step M st clause))
  = non_whitespace (flat st) ++ non_whitespace clause.
Proof.
  unfold clause_step. destruct (_ <=? _).
  - unfold flat. simpl. by rewrite app_assoc, non_whitespace_app.
  - apply flat_flush.
Qed.

Lemma fold_left_flat (f : chunker -> str -> chunker) (l : list str) st :
  (forall st x, non_whitespace (flat (f st x))
                = non_whitespace (flat st) ++ non_whitespace x) ->
  non_whitespace (flat (fold_left f l st))
  = non_whitespace (flat st) ++ non_whitespace (concat l).
Proof.
  intros Hf. revert st. induction l as [|x l IH]; intros st; simpl.
  - by rewrite app_nil_r.
  - by rewrite IH, Hf, non_whitespace_app, <- app_assoc.
Qed.

Lemma sentence_step_flat M st sentence :
  non_whitespace (flat (sentence_step M st sentence))
  = non_whitespace (flat st) ++ non_whitespace sentence.
Proof.
  unfold sentence_step.
  destruct (truthy (strip sentence)) eqn:Hs; simpl.
  - destruct (_ <=? _).
    + unfold flat. simpl.
      rewrite !app_assoc, !non_whitespace_app.
      rewrite (non_whitespace_space space eq_refl). by rewrite app_nil_r.
    + destruct (_ >? _).
      * rewrite (fold_left_flat _ _ _ (clause_step_flat M)).
        by rewrite re_split_clauses_concat.
      * rewrite flat_flush, non_whitespace_app.
        rewrite (non_whitespace_space space eq_refl). by rewrite app_nil_r.
  - destruct (strip sentence) eqn:Hstrip; [|done].
    rewrite <- (non_whitespace_strip sentence), Hstrip. by rewrite app_nil_r.
Qed.

Lemma token_step_flat encode M st sentence :
  non_whitespace (flat (token_step encode M st sentence))
  = non_whitespace (flat st) ++ non_whitespace sentence.
Proof.
  unfold token_step. cbv zeta. destruct (_ <=? _).
  - unfold flat. cbn [chunks current_chunk].
    rewrite !non_whitespace_app, non_whitespace_strip, !non_whitespace_app.
    rewrite (non_whitespace_space space eq_refl). by rewrite app_nil_l, app_assoc.
  - destruct (truthy (current_chunk st)) eqn:Ht.
    + apply (flat_flush st sentence).
    + unfold flat. cbn [chunks current_chunk].
      destruct (current_chunk st); [|done].
      by rewrite !non_whitespace_app, app_nil_r.
Qed.

Lemma final_flush_flat (st : chunker) :
  non_whitespace (concat (final_flush st)) = non_whitespace (flat st).
Proof.
  unfold final_flush, flat. destruct (current_chunk st) as [|c cur]; simpl.
  - by rewrite app_nil_r.
  - rewrite concat_app. simpl. rewrite app_nil_r.
    by rewrite !non_whitespace_app, non_whitespace_strip.
Qed.

(** C4. For every text and budget, the units of either segmenter, put end
    to end in order, hold exactly the non-whitespace characters of the
    text, in the order of the text: nothing but whitespace is added,
    dropped or moved. *)
Theorem units_preserve_text (encode : tokenizer) (text : str) (M : Z) :
  non_whitespace (concat (smart_chunk_text text M)) = non_whitespace text /\
  non_whitespace (concat (smart_chunk_text_token_limit encode text M))
  = non_whitespace text.
Proof.
  split.
  - unfold smart_chunk_text.
    rewrite final_flush_flat, (fold_left_flat _ _ _ (sentence_step_flat M)).
    apply re_split_sentences_non_whitespace.
  - unfold smart_chunk_text_token_limit.
    rewrite final_flush_flat, (fold_left_flat _ _ _ (token_step_flat encode M)).
    apply re_split_sentences_non_whitespace.
Qed.

(** *** The size bound *)

Section SizeBound.
Variable text : str.
Variable M : Z.
Hypothesis M_nonneg : 0 <= M.

Local Abbreviation char_unit_ok := (char_unit_ok text M).
Local Abbreviation char_bound_inv := (char_bound_inv text M).

Lemma char_unit_ok_short (s : str) : len s <= M -> char_unit_ok (strip s).
Proof. intros H. left. pose proof (strip_length s). lia. Qed.

Lemma flush_and_restart_bound st next :
  char_bound_inv st -> char_unit_ok (strip next) ->
  char_bound_inv (flush_and_restart st next).
Proof.
  intros [Hc Hcur] Hnext. split; [|done].
  by apply flush_and_restart_Forall.
Qed.

Lemma clause_step_bound st sentence clause :
  sentence ∈ re_split_sentences text ->
  clause ∈ re_split_clauses sentence ->
  char_bound_inv st -> char_bound_inv (clause_step M st clause).
Proof.
  intros Hs Hc Hinv. unfold clause_step.
  destruct (Z.leb_spec (len (current_chunk st) + len clause + 1) M) as [Hfit|_].
  - destruct Hinv as [Hch _]. split; [done|]. simpl.
    apply char_unit_ok_short. rewrite len_app. lia.
  - apply flush_and_restart_bound; [done|].
    destruct (Z.le_gt_cases (len clause) M) as [Hle|Hgt].
    + by apply char_unit_ok_short.
    + right. by exists sentence, clause.
Qed.

Lemma sentence_step_bound st sentence :
  sentence ∈ re_split_sentences text ->
  char_bound_inv st -> char_bound_inv (sentence_step M st sentence).
Proof.
  intros Hs Hinv. unfold sentence_step.
  destruct (negb _); [done|].
  destruct (Z.leb_spec (len (current_chunk st) + len sentence + 1) M) as [Hfit|_].
  - destruct Hinv as [Hch _]. split; [done|]. simpl.
    apply char_unit_ok_short. rewrite !len_app. change (len [space]) with 1. lia.
  - destruct (Z.gtb_spec (len sentence) M) as [_|Hle].
    + apply (fold_left_invariant char_bound_inv); [done|].
      intros st' clause Hc. by apply (clause_step_bound st' sentence).
    + apply flush_and_restart_bound; [done|].
      rewrite (strip_snoc_space sentence space eq_refl).
      by apply char_unit_ok_short.
Qed.

Lemma smart_chunk_text_bound : Forall char_unit_ok (smart_chunk_text text M).
Proof.
  assert (char_bound_inv
            (fold_left (sentence_step M) (re_split_sentences text) chunker_init))
    as [Hc Hcur].
  { apply (fold_left_invariant char_bound_inv).
    - split; [constructor|]. left. by vm_compute.
    - intros st s Hs. by apply sentence_step_bound. }
  by apply final_flush_Forall.
Qed.

Variable encode : tokenizer.

Local Abbreviation token_unit_ok := (token_unit_ok encode text M).
Local Abbreviation token_bound_inv := (token_bound_inv encode text M).

Lemma token_step_bound st sentence :
  sentence ∈ re_split_sentences text ->
  token_bound_inv st -> token_bound_inv (token_step encode M st sentence).
Proof.
  intros Hs [Hch Hcur]. unfold token_step. cbv zeta.
  destruct (Z.leb_spec
              (len (encode (strip (current_chunk st ++ [space] ++ sentence)))) M)
    as [Hfit|_].
  - split; [done|]. intros _. cbn [current_chunk].
    rewrite strip_idemp. by left.
  - split; cbn [chunks current_chunk].
    + destruct (truthy (current_chunk st)); [|done].
      apply Forall_app. split; [done|]. constructor; [by apply Hcur | done].
    + intros _.
      destruct (Z.le_gt_cases (token_count encode (strip sentence)) M)
        as [Hle|Hgt].
      * by left.
      * right. by exists sentence.
Qed.

Lemma smart_chunk_text_token_limit_bound :
  Forall token_unit_ok (smart_chunk_text_token_limit encode text M).
Proof.
  assert (token_bound_inv
            (fold_left (token_step encode M) (re_split_sentences text)
               chunker_init))
    as [Hc Hcur].
  { apply (fold_left_invariant token_bound_inv).
    - split; [constructor | done].
    - intros st s Hs. by apply token_step_bound. }
  unfold smart_chunk_text_token_limit, final_flush.
  destruct (truthy _); [|done].
  apply Forall_app. split; [done|]. constructor; [by apply Hcur | done].
Qed.
End SizeBound.

(** C1 (as amended). For every text and every budget [M] that is not
    negative: every unit of the character-budget segmenter has at most
    [M] characters, unless it is a single clause that alone has more than
    [M]; every unit of the token-budget segmenter has at most [M] tokens,
    unless it is a single whole sentence that alone has more than [M]
    (that segmenter never splits a sentence into clauses). *)
Theorem segment_size_bound (encode : tokenizer) (text : str) (M : Z) :
  0 <= M ->
  Forall (char_unit_ok text M) (smart_chunk_text text M) /\
  Forall (token_unit_ok encode text M)
    (smart_chunk_text_token_limit encode text M).
Proof.
  intros HM. split.
  - by apply smart_chunk_text_bound.
  - apply smart_chunk_text_token_limit_bound.
Qed.

(** *** The clause fallback *)

Section ClauseFallback.
Variable M : Z.
Variable start : chunker.
Variable clauses : list str.

Local Abbreviation clause_unit_ok := (clause_unit_ok M start clauses).
Local Abbreviation clause_acc_ok := (clause_acc_ok M clauses).
Local Abbreviation clause_loop_inv := (clause_loop_inv M start clauses).

Lemma clause_step_loop_inv st clause :
  clause ∈ clauses -> clause_loop_inv st ->
  clause_loop_inv (clause_step M st clause) /\
  clause_acc_ok (current_chunk (clause_step M st clause)).
Proof.
  intros Hc [(new & Hnew & Hok) Hcur]. unfold clause_step.
  destruct (Z.leb_spec (len (current_chunk st) + len clause + 1) M) as [Hfit|_].
  - assert (clause_acc_ok (current_chunk st ++ clause)) as Hacc.
    { left. rewrite len_app. lia. }
    split; [|done]. split; [by exists new | by right].
  - assert (clause_acc_ok clause) as Hacc.
    { destruct (Z.le_gt_cases (len clause) M); [by left | by right]. }
    split; [|done]. split; [|by right].
    exists (new ++ [strip (current_chunk st)]). simpl. split.
    + by rewrite Hnew, app_assoc.
    + apply Forall_app. split; [done|]. constructor; [|done].
      destruct Hcur as [->|[Hle|[Hin Hgt]]].
      * by left.
      * right; left. pose proof (strip_length (current_chunk st)). lia.
      * right; right. by exists (current_chunk st).
Qed.

Lemma clause_loop_inv_fold (l : list str) st :
  (forall c, c ∈ l -> c ∈ clauses) ->
  clause_loop_inv st ->
  clause_loop_inv (fold_left (clause_step M) l st) /\
  (l <> [] \/ clause_acc_ok (current_chunk st) ->
   clause_acc_ok (current_chunk (fold_left (clause_step M) l st))).
Proof.
  revert st. induction l as [|c l IH]; intros st Hin Hinv; simpl.
  - split; [done|]. by intros [?|?].
  - destruct (clause_step_loop_inv st c) as [Hinv' Hacc'];
      [apply Hin; left | done |].
    destruct (IH (clause_step M st c)) as [H1 H2]; [|done|].
    + intros c' Hc'. apply Hin. by right.
    + split; [done|]. intros _. apply H2. by right.
Qed.

Lemma clause_loop_spec :
  clauses <> [] ->
  let st' := fold_left (clause_step M) clauses start in
  (exists new, chunks st' = chunks start ++ new /\ Forall clause_unit_ok new) /\
  clause_acc_ok (current_chunk st').
Proof.
  intros Hne.
  destruct (clause_loop_inv_fold clauses start) as [[Hnew _] Hacc]; [done| |].
  - split; [exists []; by rewrite app_nil_r | by left].
  - split; [done|]. apply Hacc. by left.
Qed.
End ClauseFallback.

Lemma clause_loop_packing (M : Z) (clauses : list str) (st : chunker) :
  exists accs,
    greedy_packing M (current_chunk st) clauses accs /\
    chunks (fold_left (clause_step M) clauses st)
    = chunks st ++ (strip <$> removelast accs) /\
    last accs = Some (current_chunk (fold_left (clause_step M) clauses st)).
Proof.
  revert st. induction clauses as [|c cs IH]; intros st.
  - exists [current_chunk st]. split; [|split].
    + exists [], []. cbn [concat app fmap list_fmap]. rewrite app_nil_r.
      split; [done|]. split; [by left|]. by split.
    + cbn [fold_left removelast fmap list_fmap]. by rewrite app_nil_r.
    + done.
  - cbn [fold_left]. unfold clause_step at 2 4.
    destruct (Z.leb_spec (len (current_chunk st) + len c + 1) M) as [Hfit|Hover].
    + destruct (IH (Chunker (chunks st) (current_chunk st ++ c)))
        as (accs & (g0 & gs & Hcs & Hg0 & Hgreedy & Haccs) & Hchunks & Hlast).
      cbn [chunks current_chunk] in *.
      exists accs. split; [|by split].
      exists (c :: g0), gs. cbn [concat]. rewrite app_assoc.
      split; [by rewrite Hcs|]. split; [|by split].
      right. destruct Hg0 as [->|Hle]; [|done].
      cbn [concat]. rewrite app_nil_r, len_app. lia.
    + destruct (IH (flush_and_restart st c))
        as (accs & (g0 & gs & Hcs & Hg0 & Hgreedy & Haccs) & Hchunks & Hlast).
      cbn [flush_and_restart chunks current_chunk] in *.
      exists (current_chunk st :: accs). split; [|split].
      * exists [], ((c :: g0) :: gs). cbn [concat app fmap list_fmap].
        rewrite app_nil_r. split; [by rewrite Hcs|]. split; [by left|].
        split; [|by rewrite Haccs].
        cbn [greedy_from concat]. split; [|done].
        exists c, g0. split; [done|]. split; [lia|].
        destruct Hg0 as [->|Hle]; [by left | by right].
      * rewrite Hchunks, Haccs. cbn [removelast fmap list_fmap].
        by rewrite <- app_assoc.
      * rewrite Haccs in *. exact Hlast.
Qed.

(** C7 (as amended). Under the character budget, a sentence that is not
    blank and has more than [max_chunk_size] characters is split at its
    commas, semicolons and colons (the delimiters stay, as items of their
    own, so nothing is lost) and the items are packed greedily: the
    longest run of items that fits behind the accumulator joins it, and
    each later accumulator starts with the first item that did not fit
    behind the one before and takes the longest run that fits with it;
    every accumulator but the last is emitted, stripped, as a unit, and
    the last is left as the accumulator.  A unit emitted on the way is so
    the previous accumulator, or within the budget, or one clause that is
    itself over the budget, and so is the accumulator left behind.  Under
    the token budget there is no such fallback, whatever the length of the
    sentence: a sentence that does not fit the token budget behind the
    accumulator closes the accumulator and starts the next unit whole. *)
Theorem oversized_sentence_fallback (encode : tokenizer) (M : Z)
  (st : chunker) (sentence : str) :
  (truthy (strip sentence) = true ->
   M < len sentence ->
   let clauses := re_split_clauses sentence in
   let st' := sentence_step M st sentence in
   concat clauses = sentence /\
   Forall clause_item clauses /\
   (exists accs,
      greedy_packing M (current_chunk st) clauses accs /\
      chunks st' = chunks st ++ (strip <$> removelast accs) /\
      last accs = Some (current_chunk st')) /\
   (exists new, chunks st' = chunks st ++ new /\
                Forall (clause_unit_ok M st clauses) new) /\
   clause_acc_ok M clauses (current_chunk st')) /\
  (M < token_count encode (strip (current_chunk st ++ [space] ++ sentence)) ->
   token_step encode M st sentence
   = Chunker (if truthy (current_chunk st)
              then chunks st ++ [strip (current_chunk st)]
              else chunks st)
       sentence).
Proof.
  split.
  - intros Hs HM clauses st'.
    assert (st' = fold_left (clause_step M) clauses st) as Hst'.
    { unfold st', sentence_step. rewrite Hs. cbn [negb].
      destruct (Z.leb_spec (len (current_chunk st) + len sentence + 1) M)
        as [Hfit|_].
      { pose proof (len_nonneg (current_chunk st)). lia. }
      destruct (Z.gtb_spec (len sentence) M) as [_|Hle]; [done | lia]. }
    split; [apply re_split_clauses_concat|].
    split; [apply re_split_clauses_items|].
    rewrite Hst'.
    split; [apply clause_loop_packing|].
    apply clause_loop_spec.
    intros Hnil. pose proof (re_split_clauses_concat sentence) as Hc.
    fold clauses in Hc. rewrite Hnil in Hc. simpl in Hc. subst sentence.
    by vm_compute in Hs.
  - intros Hover. unfold token_step. cbv zeta.
    destruct (Z.leb_spec
                (len (encode (strip (current_chunk st ++ [space] ++ sentence)))) M)
      as [Hfit|_]; [|done].
    unfold token_count in Hover. lia.
Qed.

(** *** Blank input *)

Lemma smart_chunk_text_blank (text : str) (M : Z) :
  whitespace_only text -> smart_chunk_text text M = [].
Proof.
  intros H. unfold smart_chunk_text, re_split_sentences.
  rewrite (re_split_sentences_from_all_space [] text H). simpl.
  unfold sentence_step. by rewrite (strip_all_space text H).
Qed.

Lemma smart_chunk_text_token_limit_empty (encode : tokenizer) (M : Z) :
  smart_chunk_text_token_limit encode [] M = [].
Proof.
  unfold smart_chunk_text_token_limit. simpl. unfold token_step. cbv zeta.
  by destruct (_ <=? _).
Qed.

Lemma smart_chunk_text_token_limit_blank (encode : tokenizer) (text : str) (M : Z) :
  whitespace_only text -> token_count encode [] <= M ->
  smart_chunk_text_token_limit encode text M = [].
Proof.
  intros H Hfit. unfold smart_chunk_text_token_limit, re_split_sentences.
  rewrite (re_split_sentences_from_all_space [] text H). simpl.
  unfold token_step. cbv zeta. cbn [current_chunk chunks chunker_init].
  assert (strip ([] ++ [space] ++ text) = []) as ->.
  { apply strip_all_space. by constructor. }
  destruct (Z.leb_spec (len (encode [])) M) as [_|Hgt]; [done|].
  unfold token_count in Hfit. lia.
Qed.

(** X17. On the empty string and on whitespace-only input the
    character-budget segmenter returns no units, whatever the budget; the
    token-budget segmenter returns no units on the empty string, and on
    whitespace-only input when the token count of the empty string is
    within the budget. *)
Theorem blank_input_gives_no_units (encode : tokenizer) (text : str) (M : Z) :
  whitespace_only text ->
  smart_chunk_text [] M = [] /\
  smart_chunk_text text M = [] /\
  smart_chunk_text_token_limit encode [] M = [] /\
  (token_count encode [] <= M ->
   smart_chunk_text_token_limit encode text M = []).
Proof.
  intros H. split; [by apply smart_chunk_text_blank; constructor|].
  split; [by apply smart_chunk_text_blank|].
  split; [apply smart_chunk_text_token_limit_empty|].
  by apply smart_chunk_text_token_limit_blank.
Qed.

(** ** Chunk file names *)

Lemma uint_of_string_zeros (k : nat) (s : string) (d : Decimal.uint) :
  NilEmpty.uint_of_string s = Some d ->
  NilEmpty.uint_of_string (String.append (zeros k) s)
  = Some (Nat.iter k Decimal.D0 d).
Proof.
  intros H. induction k as [|k IH]; simpl; [done|]. by rewrite IH.
Qed.

Lemma of_uint_iter_D0 (k : nat) (d : Decimal.uint) :
  Nat.of_uint (Nat.iter k Decimal.D0 d) = Nat.of_uint d.
Proof. induction k as [|k IH]; simpl; [done|]. exact IH. Qed.

Lemma string_of_to_uint (i : nat) :
  NilEmpty.uint_of_string (NilZero.string_of_uint (Nat.to_uint i))
  = Some (Nat.to_uint i).
Proof.
  assert (Nat.to_uint i <> Decimal.Nil) as Hnil.
  { intros H. pose proof (DecimalNat.Unsigned.of_to i) as Hi. rewrite H in Hi.
    destruct i; [by vm_compute in H | by vm_compute in Hi]. }
  destruct (Nat.to_uint i) eqn:E; [done | apply NilEmpty.usu ..].
Qed.

Lemma decimal_value_format_04d (i : nat) : decimal_value (format_04d i) = Some i.
Proof.
  unfold decimal_value, format_04d.
  rewrite (uint_of_string_zeros _ _ _ (string_of_to_uint i)). simpl.
  by rewrite of_uint_iter_D0, DecimalNat.Unsigned.of_to.
Qed.

Lemma string_append_inv_head (p s t : string) :
  String.append p s = String.append p t -> s = t.
Proof. induction p as [|a p IH]; simpl; [done|]. intros [= H]. by apply IH. Qed.

Lemma string_append_length (s t : string) :
  String.length (String.append s t) = (String.length s + String.length t)%nat.
Proof. induction s as [|a s IH]; simpl; [done|]. by rewrite IH. Qed.

Lemma string_append_inv_tail (s t q : string) :
  String.append s q = String.append t q -> s = t.
Proof.
  revert t. induction s as [|a s IH]; intros [|b t] H; simpl in *.
  - done.
  - apply (f_equal String.length) in H.
    rewrite !string_append_length in H. cbn [String.length] in H. lia.
  - apply (f_equal String.length) in H.
    rewrite !string_append_length in H. cbn [String.length] in H. lia.
  - injection H as -> H. f_equal. by apply IH.
Qed.

Lemma format_04d_inj (i j : nat) : format_04d i = format_04d j -> i = j.
Proof.
  intros H. apply (f_equal decimal_value) in H.
  rewrite !decimal_value_format_04d in H. by injection H.
Qed.

Lemma chunk_file_name_inj (output_dir : string) (i j : nat) :
  chunk_file_name output_dir i = chunk_file_name output_dir j -> i = j.
Proof.
  unfold chunk_file_name. intros H.
  apply string_append_inv_head, string_append_inv_head in H.
  by apply string_append_inv_tail, format_04d_inj in H.
Qed.

Lemma format_04d_length (i : nat) : (4 <= String.length (format_04d i))%nat.
Proof.
  unfold format_04d. rewrite string_append_length.
  assert (forall n, String.length (zeros n) = n) as ->.
  { induction n as [|n IH]; simpl; [done|]. by rewrite IH. }
  lia.
Qed.

(** X1. The chunk number written into a file name reads back as the
    index it was made from, is never shorter than four digits, and so two
    different chunk indices never get the same file name in one output
    directory. *)
Theorem chunk_file_names_distinct (output_dir : string) (i j : nat) :
  decimal_value (format_04d i) = Some i /\
  (4 <= String.length (format_04d i))%nat /\
  (chunk_file_name output_dir i = chunk_file_name output_dir j <-> i = j).
Proof.
  split; [apply decimal_value_format_04d|].
  split; [apply format_04d_length|].
  split; [apply chunk_file_name_inj | by intros ->].
Qed.

(** ** Running a computation *)

Lemma bind_returned {A B} (m : io A) (k : A -> io B) (w : world) (a : A)
  (w' : world) :
  m w = (Returned a, w') -> (m ≫= k) w = k a w'.
Proof. intros H. unfold mbind, io_bind. by rewrite H. Qed.

Lemma bind_raised {A B} (m : io A) (k : A -> io B) (w : world) (e : exn)
  (w' : world) :
  m w = (Raised e, w') -> (m ≫= k) w = (Raised e, w').
Proof. intros H. unfold mbind, io_bind. by rewrite H. Qed.

(** ** Paths and directories *)

Lemma has_slash_append (s t : string) :
  has_slash (String.append s t) = has_slash s || has_slash t.
Proof.
  induction s as [|c s IH]; simpl; [done|].
  by rewrite IH, orb_assoc.
Qed.

Lemma has_slash_zeros (n : nat) : has_slash (zeros n) = false.
Proof. induction n as [|n IH]; [done|]. cbn [zeros has_slash]. by rewrite IH. Qed.

Lemma has_slash_digits (d : Decimal.uint) :
  has_slash (NilEmpty.string_of_uint d) = false.
Proof.
  induction d as [|d IH|d IH|d IH|d IH|d IH|d IH|d IH|d IH|d IH|d IH];
    cbn [NilEmpty.string_of_uint has_slash]; [done | by rewrite IH ..].
Qed.

Lemma has_slash_format_04d (i : nat) : has_slash (format_04d i) = false.
Proof.
  unfold format_04d. rewrite has_slash_append, has_slash_zeros.
  cbn [orb]. unfold NilZero.string_of_uint.
  destruct (Nat.to_uint i) eqn:E; [done | rewrite <- E; apply has_slash_digits ..].
Qed.

Lemma path_split_append_slash (dir base : string) :
  has_slash base = false ->
  path_split (String.append dir (String "/" base)) = (dir, base).
Proof.
  intros Hbase. induction dir as [|c dir IH].
  - change (String.append EmptyString (String "/" base)) with (String "/" base).
    cbn [path_split]. by rewrite Hbase.
  - change (String.append (String c dir) (String "/" base))
      with (String c (String.append dir (String "/" base))).
    assert (has_slash (String "/" base) = true) as Hs by reflexivity.
    cbn [path_split]. rewrite has_slash_append, Hs, orb_true_r.
    by rewrite IH.
Qed.

Lemma chunk_file_name_split (output_dir : string) (i : nat) :
  path_split (chunk_file_name output_dir i) = (output_dir, chunk_base_name i).
Proof.
  apply (path_split_append_slash output_dir (chunk_base_name i)).
  unfold chunk_base_name. rewrite !has_slash_append, has_slash_format_04d.
  reflexivity.
Qed.

Lemma chunk_file_name_length (output_dir : string) (i : nat) :
  (String.length output_dir + 15 <= String.length (chunk_file_name output_dir i))%nat.
Proof.
  unfold chunk_file_name. rewrite !string_append_length.
  pose proof (format_04d_length i). cbn [String.length]. lia.
Qed.

Lemma chunk_file_name_not_dir (output_dir : string) (i : nat) :
  chunk_file_name output_dir i <> output_dir.
Proof.
  intros H. pose proof (chunk_file_name_length output_dir i) as Hlen.
  rewrite H in Hlen. lia.
Qed.

Lemma is_dir_insert_ne (files : gmap string file) (q p : string) (content : file) :
  q <> p -> is_dir (<[q := content]> files) p = is_dir files p.
Proof. intros Hne. unfold is_dir. by rewrite lookup_insert_ne. Qed.

Lemma can_write_insert (files : gmap string file) (q p : string) (content : file) :
  q <> p -> q <> parent_dir p ->
  can_write (<[q := content]> files) p = can_write files p.
Proof.
  intros H1 H2. unfold can_write. by rewrite !is_dir_insert_ne.
Qed.

(** Writing one chunk file does not change whether another can be
    written. *)
Lemma attempt_insert (render : synthesizer) (output_dir : string)
  (files : gmap string file) (k j : nat) (content : file) (u : str) :
  k <> j ->
  attempt render output_dir (<[chunk_file_name output_dir k := content]> files) j u
  = attempt render output_dir files j u.
Proof.
  intros Hkj. unfold attempt. rewrite can_write_insert; [done| |].
  - intros H. by apply chunk_file_name_inj in H.
  - unfold parent_dir. rewrite chunk_file_name_split. cbn [fst].
    apply chunk_file_name_not_dir.
Qed.

Lemma make_chain_other (dirs : list string) (files files' : gmap string file)
  (o : outcome unit) (q : string) :
  make_chain dirs files = (o, files') -> q ∉ dirs -> files' !! q = files !! q.
Proof.
  revert files. induction dirs as [|d rest IH]; intros files Hm Hq.
  - cbn [make_chain] in Hm. by injection Hm as _ ->.
  - apply not_elem_of_cons in Hq as [Hne Hq]. cbn [make_chain] in Hm.
    destruct (is_dir files d); [by apply IH|].
    destruct (files !! d) as [content|] eqn:Hd.
    + by injection Hm as _ ->.
    + rewrite (IH _ Hm Hq). by apply lookup_insert_ne.
Qed.

Lemma make_chain_keeps_dirs (dirs : list string) (files files' : gmap string file)
  (o : outcome unit) (p : string) :
  make_chain dirs files = (o, files') -> is_dir files p = true ->
  is_dir files' p = true.
Proof.
  revert files. induction dirs as [|d rest IH]; intros files Hm Hp.
  - cbn [make_chain] in Hm. by injection Hm as _ <-.
  - cbn [make_chain] in Hm.
    destruct (is_dir files d) eqn:Hdir; [by apply (IH files)|].
    destruct (files !! d) as [content|] eqn:Hd.
    + by injection Hm as _ <-.
    + apply (IH _ Hm). rewrite is_dir_insert_ne; [done|].
      intros ->. congruence.
Qed.

Lemma make_chain_is_dir (dirs : list string) (files files' : gmap string file)
  (d : string) :
  make_chain dirs files = (Returned tt, files') -> d ∈ dirs ->
  is_dir files' d = true.
Proof.
  revert files. induction dirs as [|d' rest IH]; intros files Hm Hd.
  - by apply elem_of_nil in Hd.
  - cbn [make_chain] in Hm. apply elem_of_cons in Hd as [->|Hd].
    + destruct (is_dir files d') eqn:Hdir.
      * by apply (make_chain_keeps_dirs rest files files' (Returned tt)).
      * destruct (files !! d') as [content|] eqn:Hlook; [done|].
        apply (make_chain_keeps_dirs _ _ _ _ _ Hm).
        unfold is_dir. rewrite lookup_insert_eq. by rewrite orb_true_r.
    + destruct (is_dir files d'); [by apply (IH files)|].
      destruct (files !! d') as [content|]; [done|]. by apply (IH _ Hm).
Qed.

Lemma slash_prefixes_length (before s p : string) :
  p ∈ slash_prefixes before s ->
  (String.length p < String.length before + String.length s)%nat.
Proof.
  revert before. induction s as [|c rest IH]; intros before Hp.
  - by apply elem_of_nil in Hp.
  - cbn [slash_prefixes] in Hp. cbn [String.length].
    assert (p ∈ slash_prefixes (String.append before (String c EmptyString)) rest ->
            (String.length p < String.length before + S (String.length rest))%nat)
      as Hrest.
    { intros Hin. apply IH in Hin. rewrite string_append_length in Hin.
      cbn [String.length] in Hin. lia. }
    destruct (is_slash c); [|by apply Hrest].
    apply elem_of_cons in Hp as [->|Hp]; [lia | by apply Hrest].
Qed.

Lemma dir_chain_length (path p : string) :
  p ∈ dir_chain path -> (String.length p <= String.length path)%nat.
Proof.
  unfold dir_chain. intros [Hp|Hp]%elem_of_app.
  - apply slash_prefixes_length in Hp. cbn [String.length] in Hp. lia.
  - apply list_elem_of_singleton in Hp. by subst p.
Qed.

Lemma chunk_file_name_not_in_chain (output_dir : string) (i : nat) :
  chunk_file_name output_dir i ∉ dir_chain output_dir.
Proof.
  intros Hin%dir_chain_length.
  pose proof (chunk_file_name_length output_dir i). lia.
Qed.

(** What a call of [os.makedirs] that returns leaves behind: the path is
    a directory, and nothing outside its chain of directories changed. *)
Lemma makedirs_files_returned (path : string) (files files1 : gmap string file) :
  makedirs_files path files = (Returned tt, files1) ->
  is_dir files1 path = true /\
  (forall q, q ∉ dir_chain path -> files1 !! q = files !! q).
Proof.
  unfold makedirs_files. destruct (bool_decide (path = EmptyString)); [done|].
  intros Hm. split.
  - apply (make_chain_is_dir _ _ _ _ Hm). unfold dir_chain.
    apply elem_of_app. right. apply list_elem_of_singleton. done.
  - intros q Hq. by apply (make_chain_other _ _ _ _ _ Hm).
Qed.

Lemma makedirs_files_other (path : string) (files files1 : gmap string file)
  (o : outcome unit) (q : string) :
  makedirs_files path files = (o, files1) -> q ∉ dir_chain path ->
  files1 !! q = files !! q.
Proof.
  unfold makedirs_files. destruct (bool_decide (path = EmptyString)).
  - by intros [= _ ->].
  - intros Hm Hq. by apply (make_chain_other _ _ _ _ _ Hm).
Qed.

Lemma makedirs_run (path : string) (w : world) (o : outcome unit)
  (files1 : gmap string file) :
  makedirs_files path (fs w) = (o, files1) ->
  makedirs path w = (o, World files1 (stdout w)).
Proof. intros H. unfold makedirs. by rewrite H. Qed.

(** Once the output directory is there, a chunk file can be written
    unless its own path names a directory. *)
Lemma can_write_chunk (output_dir : string) (files : gmap string file) (i : nat) :
  is_dir files output_dir = true ->
  can_write files (chunk_file_name output_dir i)
  = negb (is_dir files (chunk_file_name output_dir i)).
Proof.
  intros Hdir. unfold can_write, parent_dir, base_name.
  rewrite chunk_file_name_split. cbn [fst snd]. rewrite Hdir.
  rewrite bool_decide_eq_false_2; [done|].
  unfold chunk_base_name. discriminate.
Qed.

(** ** Assembly *)

Lemma decoded_cons (files : gmap string file) (path : string) (rest : list string) :
  decoded files (path :: rest)
  = match files !! path with
    | Some (WavFile audio) => audio :: decoded files rest
    | _ => decoded files rest
    end.
Proof.
  unfold decoded. cbn [omap list_omap].
  by destruct (files !! path) as [[?|?|]|].
Qed.

Lemma decode_errors_cons (files : gmap string file) (path : string)
  (rest : list string) :
  decode_errors files (path :: rest)
  = match files !! path with
    | Some (WavFile audio) => decode_errors files rest
    | _ => MsgErrorLoading path CouldntDecode :: decode_errors files rest
    end.
Proof.
  unfold decode_errors. cbn [omap list_omap].
  by destruct (files !! path) as [[?|?|]|].
Qed.

Lemma assemble_fold (lib : pydub) (silence : Z) (audios : list AudioSegment) :
  assemble lib silence audios
  = fold_left (append_padded lib silence) audios (AudioSegment_empty lib).
Proof. reflexivity. Qed.

Lemma combine_loop_spec (lib : pydub) (silence : Z) (audio_files : list string)
  (combined : AudioSegment) (w : world) :
  combine_loop lib silence audio_files combined w
  = (Returned (fold_left (append_padded lib silence)
                 (decoded (fs w) audio_files) combined),
     World (fs w) (stdout w ++ decode_errors (fs w) audio_files)).
Proof.
  revert combined w.
  induction audio_files as [|path rest IH]; intros combined w.
  - simpl. rewrite !app_nil_r. by destruct w.
  - cbn [combine_loop]. unfold mbind, io_bind, try_except, from_wav.
    rewrite decoded_cons, decode_errors_cons.
    destruct (fs w !! path) as [[content|audio|]|] eqn:Hp;
      unfold print, mret, io_ret; cbn [is_Exception]; rewrite IH;
      cbn [fs stdout fold_left]; f_equal; by rewrite <- app_assoc.
Qed.

Lemma combine_audio_files_written (lib : pydub) (silence : Z)
  (audio_files : list string) (final_output : string) (w : world) :
  can_write (fs w) final_output = true ->
  combine_audio_files lib silence audio_files final_output w
  = (Returned final_output,
     World (<[final_output :=
               WavFile (assemble lib silence (decoded (fs w) audio_files))]>
              (fs w))
           (stdout w ++ [MsgCombining] ++ decode_errors (fs w) audio_files
              ++ [MsgFinalSaved final_output])).
Proof.
  intros Hw. unfold combine_audio_files, mbind, io_bind, print.
  rewrite combine_loop_spec. unfold export, write_file, mret, io_ret.
  cbn [fs stdout]. rewrite Hw. cbn [fs stdout].
  by rewrite assemble_fold, <- !app_assoc.
Qed.

Lemma combine_audio_files_not_written (lib : pydub) (silence : Z)
  (audio_files : list string) (final_output : string) (w : world) :
  can_write (fs w) final_output = false ->
  combine_audio_files lib silence audio_files final_output w
  = (Raised CouldntWrite,
     World (fs w)
           (stdout w ++ [MsgCombining] ++ decode_errors (fs w) audio_files)).
Proof.
  intros Hw. unfold combine_audio_files, mbind, io_bind, print.
  rewrite combine_loop_spec. unfold export, write_file.
  cbn [fs stdout]. rewrite Hw. by rewrite <- !app_assoc.
Qed.

Lemma total_duration_cons (lib : pydub) (a : AudioSegment)
  (audios : list AudioSegment) :
  total_duration lib (a :: audios) = duration_ms lib a + total_duration lib audios.
Proof. reflexivity. Qed.

Lemma append_padded_duration (lib : pydub) (tol : Z) (silence : Z)
  (combined audio : AudioSegment) :
  within_tolerance lib tol -> 0 <= silence ->
  Z.abs (duration_ms lib (append_padded lib silence combined audio)
         - (duration_ms lib combined + duration_ms lib audio + silence))
  <= 3 * tol.
Proof.
  intros Htol Hs. unfold append_padded.
  pose proof (add_duration lib tol Htol combined
                (AudioSegment_add lib audio (AudioSegment_silent lib silence))).
  pose proof (add_duration lib tol Htol audio (AudioSegment_silent lib silence)).
  pose proof (silent_duration lib tol Htol silence Hs).
  lia.
Qed.

Lemma fold_append_padded_duration (lib : pydub) (tol : Z) (silence : Z)
  (audios : list AudioSegment) (combined : AudioSegment) :
  within_tolerance lib tol -> 0 <= silence ->
  Z.abs (duration_ms lib (fold_left (append_padded lib silence) audios combined)
         - (duration_ms lib combined + total_duration lib audios
            + len audios * silence))
  <= 3 * len audios * tol.
Proof.
  intros Htol Hs. revert combined.
  induction audios as [|a audios IH]; intros combined.
  - cbn [fold_left]. unfold total_duration, len. cbn. lia.
  - cbn [fold_left]. rewrite total_duration_cons.
    pose proof (IH (append_padded lib silence combined a)) as H1.
    pose proof (append_padded_duration lib tol silence combined a Htol Hs) as H2.
    unfold len in *. cbn [length]. rewrite Nat2Z.inj_succ.
    lia.
Qed.

Lemma assemble_duration (lib : pydub) (tol : Z) (silence : Z)
  (audios : list AudioSegment) :
  within_tolerance lib tol -> 0 <= silence ->
  Z.abs (duration_ms lib (assemble lib silence audios)
         - (total_duration lib audios + len audios * silence))
  <= 3 * len audios * tol.
Proof.
  intros Htol Hs. rewrite assemble_fold.
  pose proof (fold_append_padded_duration lib tol silence audios
                (AudioSegment_empty lib) Htol Hs) as H.
  rewrite (empty_duration lib tol Htol) in H. by rewrite Z.add_0_l in H.
Qed.

Lemma decoded_all (files : gmap string file) (audio_files : list string)
  (audios : list AudioSegment) :
  Forall2 (fun path audio => files !! path = Some (WavFile audio))
    audio_files audios ->
  decoded files audio_files = audios.
Proof.
  induction 1 as [|path audio rest audios Hp _ IH]; [done|].
  by rewrite decoded_cons, Hp, IH.
Qed.

Lemma decoded_none (files : gmap string file) (audio_files : list string) :
  (forall path audio, path ∈ audio_files -> files !! path <> Some (WavFile audio)) ->
  decoded files audio_files = [].
Proof.
  induction audio_files as [|path rest IH]; intros H; [done|].
  rewrite decoded_cons.
  destruct (files !! path) as [[content|audio|]|] eqn:Hp.
  - apply IH. intros p a Hin. apply H. by right.
  - exfalso. apply (H path audio); [left | done].
  - apply IH. intros p a Hin. apply H. by right.
  - apply IH. intros p a Hin. apply H. by right.
Qed.

Lemma decoded_decode_errors_length (files : gmap string file)
  (audio_files : list string) :
  (length (decoded files audio_files)
   + length (decode_errors files audio_files))%nat
  = length audio_files.
Proof.
  induction audio_files as [|path rest IH]; [done|].
  rewrite decoded_cons, decode_errors_cons.
  destruct (files !! path) as [[?|?|]|]; cbn [length]; lia.
Qed.

(** C2 (as amended). When every artifact decodes and the output path can
    be written, the assembled track lasts, within rounding tolerance, the
    sum of the artifacts' durations plus one gap per artifact:
    [artifact_count * gap_duration], the last artifact being followed by
    silence like the others.  The tolerance is three rounding errors of
    the audio library per artifact: one for the silence and one for each
    of the two sums. *)
Theorem assembled_track_duration (lib : pydub) (tol : Z) (silence : Z)
  (audio_files : list string) (audios : list AudioSegment)
  (final_output : string) (w : world) :
  within_tolerance lib tol ->
  0 <= silence ->
  Forall2 (fun path audio => fs w !! path = Some (WavFile audio))
    audio_files audios ->
  can_write (fs w) final_output = true ->
  exists track w',
    combine_audio_files lib silence audio_files final_output w
    = (Returned final_output, w') /\
    fs w' !! final_output = Some (WavFile track) /\
    Z.abs (duration_ms lib track
           - (total_duration lib audios + len audio_files * silence))
    <= 3 * len audio_files * tol.
Proof.
  intros Htol Hs Hall Hw. rewrite combine_audio_files_written by done.
  rewrite (decoded_all _ _ _ Hall).
  eexists _, _. split; [done|]. cbn [fs]. split; [apply lookup_insert_eq|].
  unfold len. rewrite (Forall2_length _ _ _ Hall).
  by apply assemble_duration.
Qed.

(** C3 (as amended). When no artifact is appended, because there is none
    or because none decodes, the assembler raises no error of its own:
    it goes on to export the empty track.  When the output path can be
    written, it writes the output file, holding the empty track, and
    returns its path; when it cannot, the error of the export is raised,
    after one line per artifact that did not decode, and no file has
    changed. *)
Theorem assembly_of_nothing (lib : pydub) (silence : Z)
  (audio_files : list string) (final_output : string) (w : world) :
  (forall path audio, path ∈ audio_files -> fs w !! path <> Some (WavFile audio)) ->
  (can_write (fs w) final_output = true ->
   exists w',
     combine_audio_files lib silence audio_files final_output w
     = (Returned final_output, w') /\
     fs w' !! final_output = Some (WavFile (AudioSegment_empty lib))) /\
  (can_write (fs w) final_output = false ->
   combine_audio_files lib silence audio_files final_output w
   = (Raised CouldntWrite,
      World (fs w)
        (stdout w ++ [MsgCombining] ++ decode_errors (fs w) audio_files)) /\
   length (decode_errors (fs w) audio_files) = length audio_files).
Proof.
  intros Hnone. split; intros Hw.
  - rewrite combine_audio_files_written by done.
    rewrite (decoded_none _ _ Hnone).
    eexists. split; [done|]. apply lookup_insert_eq.
  - split; [by apply combine_audio_files_not_written|].
    pose proof (decoded_decode_errors_length (fs w) audio_files) as Hlen.
    by rewrite (decoded_none _ _ Hnone) in Hlen.
Qed.

(** ** The synthesis loop *)

Lemma synthesis_loop_spec (render : synthesizer) (output_dir : string)
  (total i : nat) (chunks : list str) (audio_files : list string) (w : world)
  (files0 : gmap string file) :
  (forall j u, (i <= j)%nat ->
     attempt render output_dir (fs w) j u = attempt render output_dir files0 j u) ->
  synthesis_loop render output_dir total i chunks audio_files w
  = (Returned (audio_files
               ++ (chunk_file_name output_dir
                     <$> survivors (attempt render output_dir files0) i chunks)),
     World (synthesized_files (attempt render output_dir files0)
              output_dir i chunks (fs w))
           (stdout w
              ++ synthesis_lines (attempt render output_dir files0) total i chunks)).
Proof.
  revert i audio_files w.
  induction chunks as [|chunk rest IH]; intros i audio_files w Hsame.
  - simpl. rewrite !app_nil_r. by destruct w.
  - cbn [synthesis_loop survivors synthesized_files synthesis_lines].
    pose proof (Hsame i chunk (Nat.le_refl i)) as Hi.
    set (att := attempt render output_dir files0) in *.
    unfold attempt in Hi.
    unfold mbind, io_bind, print, try_except, tts_to_file, write_file.
    cbn [fs stdout].
    destruct (render i chunk) as [audio|];
      [destruct (can_write (fs w) (chunk_file_name output_dir i))|];
      rewrite <- Hi.
    + unfold mret, io_ret. rewrite IH.
      * cbn [fs stdout fmap list_fmap]. by rewrite <- !app_assoc.
      * intros j u Hj. cbn [fs]. rewrite attempt_insert by lia.
        apply Hsame. lia.
    + cbn [is_Exception]. unfold mret, io_ret. rewrite IH.
      * cbn [fs stdout]. by rewrite <- !app_assoc.
      * intros j u Hj. cbn [fs]. apply Hsame. lia.
    + cbn [is_Exception]. unfold mret, io_ret. rewrite IH.
      * cbn [fs stdout]. by rewrite <- !app_assoc.
      * intros j u Hj. cbn [fs]. apply Hsame. lia.
Qed.

(** A synthesis run whose directory could be made. *)
Lemma generate_long_audio_returned (cfg : script) (render : synthesizer)
  (text : str) (speaker_wav_path output_dir : string) (w : world)
  (files1 : gmap string file) :
  makedirs_files output_dir (fs w) = (Returned tt, files1) ->
  let att := attempt render output_dir files1 in
  let units := segment cfg text in
  generate_long_audio cfg render text speaker_wav_path output_dir w
  = (Returned (chunk_file_name output_dir <$> survivors att 0 units),
     World (synthesized_files att output_dir 0 units files1)
           (stdout w ++ synthesis_lines att (length units) 0 units)).
Proof.
  intros Hm att units. unfold generate_long_audio.
  rewrite (bind_returned _ _ w tt (World files1 (stdout w)))
    by (by apply makedirs_run).
  fold units. by rewrite (synthesis_loop_spec _ _ _ _ _ _ _ files1).
Qed.

(** A synthesis run whose directory could not be made. *)
Lemma generate_long_audio_raised (cfg : script) (render : synthesizer)
  (text : str) (speaker_wav_path output_dir : string) (w : world)
  (e : exn) (files1 : gmap string file) :
  makedirs_files output_dir (fs w) = (Raised e, files1) ->
  generate_long_audio cfg render text speaker_wav_path output_dir w
  = (Raised e, World files1 (stdout w)).
Proof.
  intros Hm. unfold generate_long_audio.
  by rewrite (bind_raised _ _ w e (World files1 (stdout w)))
    by (by apply makedirs_run).
Qed.

Section Attempts.
Variable att : nat -> str -> outcome AudioSegment.
Variable output_dir : string.

Lemma elem_of_survivors (i : nat) (chunks : list str) (k : nat) :
  k ∈ survivors att i chunks <->
  exists j u a, k = (i + j)%nat /\ chunks !! j = Some u /\ att k u = Returned a.
Proof.
  revert i. induction chunks as [|chunk rest IH]; intros i.
  - simpl. split; [by intros ?%elem_of_nil | by intros (j & u & a & _ & ? & _)].
  - cbn [survivors]. split.
    + destruct (att i chunk) as [audio|e] eqn:Hr.
      * intros [->|Hk]%elem_of_cons.
        -- exists O, chunk, audio. by rewrite Nat.add_0_r.
        -- apply IH in Hk as (j & u & a & -> & Hj & Ha).
           exists (S j), u, a. split; [lia | done].
      * intros Hk. apply IH in Hk as (j & u & a & -> & Hj & Ha).
        exists (S j), u, a. split; [lia | done].
    + intros (j & u & a & -> & Hj & Ha). destruct j as [|j].
      * injection Hj as ->. rewrite Nat.add_0_r in *. rewrite Ha. left.
      * assert ((i + S j)%nat ∈ survivors att (S i) rest) as Hin.
        { apply IH. exists j, u, a. split; [lia | done]. }
        destruct (att i chunk); [by right | done].
Qed.

Lemma synthesized_files_other (i : nat) (chunks : list str)
  (files : gmap string file) (path : string) :
  path ∉ (chunk_file_name output_dir <$> survivors att i chunks) ->
  synthesized_files att output_dir i chunks files !! path = files !! path.
Proof.
  revert i files. induction chunks as [|chunk rest IH]; intros i files Hp; [done|].
  cbn [synthesized_files survivors] in *.
  destruct (att i chunk) as [audio|e].
  - cbn [fmap list_fmap] in Hp. apply not_elem_of_cons in Hp as [Hne Hp].
    rewrite IH by done. by apply lookup_insert_ne.
  - by apply IH.
Qed.

Lemma chunk_file_name_not_later (i k : nat) (chunks : list str) :
  (k < i)%nat ->
  chunk_file_name output_dir k
  ∉ (chunk_file_name output_dir <$> survivors att i chunks).
Proof.
  intros Hk [j [Hj Hin]]%list_elem_of_fmap.
  apply chunk_file_name_inj in Hj. subst j.
  apply elem_of_survivors in Hin as (j & _ & _ & -> & _). lia.
Qed.

Lemma synthesized_files_survivor (i j : nat) (chunks : list str)
  (files : gmap string file) (u : str) (a : AudioSegment) :
  chunks !! j = Some u -> att (i + j)%nat u = Returned a ->
  synthesized_files att output_dir i chunks files
    !! chunk_file_name output_dir (i + j)
  = Some (WavFile a).
Proof.
  revert i j files. induction chunks as [|chunk rest IH]; intros i j files Hj Ha;
    [done|].
  cbn [synthesized_files]. destruct j as [|j].
  - injection Hj as ->. rewrite Nat.add_0_r in *. rewrite Ha.
    rewrite synthesized_files_other by (apply chunk_file_name_not_later; lia).
    apply lookup_insert_eq.
  - replace (i + S j)%nat with (S i + j)%nat in * by lia. by apply IH.
Qed.

Lemma decoded_synthesized (i : nat) (chunks : list str)
  (files : gmap string file) :
  decoded (synthesized_files att output_dir i chunks files)
    (chunk_file_name output_dir <$> survivors att i chunks)
  = rendered_audio att i chunks.
Proof.
  revert i files. induction chunks as [|chunk rest IH]; intros i files; [done|].
  cbn [synthesized_files survivors rendered_audio].
  destruct (att i chunk) as [audio|e]; [|apply IH].
  cbn [fmap list_fmap]. rewrite decoded_cons.
  rewrite synthesized_files_other by (apply chunk_file_name_not_later; lia).
  rewrite lookup_insert_eq. f_equal. apply IH.
Qed.

Lemma decode_errors_synthesized (i : nat) (chunks : list str)
  (files : gmap string file) :
  decode_errors (synthesized_files att output_dir i chunks files)
    (chunk_file_name output_dir <$> survivors att i chunks)
  = [].
Proof.
  revert i files. induction chunks as [|chunk rest IH]; intros i files; [done|].
  cbn [synthesized_files survivors].
  destruct (att i chunk) as [audio|e]; [|apply IH].
  cbn [fmap list_fmap]. rewrite decode_errors_cons.
  rewrite synthesized_files_other by (apply chunk_file_name_not_later; lia).
  rewrite lookup_insert_eq. apply IH.
Qed.

Lemma rendered_audio_length (i : nat) (chunks : list str) :
  length (rendered_audio att i chunks) = length (survivors att i chunks).
Proof.
  revert i. induction chunks as [|chunk rest IH]; intros i; [done|].
  cbn [rendered_audio survivors]. destruct (att i chunk); cbn [length]; by rewrite IH.
Qed.

Lemma progress_lines (total i : nat) (chunks : list str) :
  List.filter is_progress_line (synthesis_lines att total i chunks)
  = (fun k => MsgProcessingChunk (k + 1) total) <$> seq i (length chunks).
Proof.
  revert i. induction chunks as [|chunk rest IH]; intros i; [done|].
  cbn [synthesis_lines List.filter is_progress_line length seq fmap list_fmap].
  f_equal. destruct (att i chunk); cbn [List.filter is_progress_line]; apply IH.
Qed.

Lemma error_lines_count (total i : nat) (chunks : list str) :
  (length (List.filter is_synthesis_error_line
             (synthesis_lines att total i chunks))
   + length (survivors att i chunks))%nat
  = length chunks.
Proof.
  revert i. induction chunks as [|chunk rest IH]; intros i; [done|].
  cbn [synthesis_lines List.filter is_synthesis_error_line survivors length].
  destruct (att i chunk);
    cbn [List.filter is_synthesis_error_line length]; rewrite <- (IH (S i)); lia.
Qed.

Lemma synthesis_lines_only (total i : nat) (chunks : list str) (m : message) :
  m ∈ synthesis_lines att total i chunks ->
  is_progress_line m || is_synthesis_error_line m = true.
Proof.
  revert i. induction chunks as [|chunk rest IH]; intros i Hm.
  - by apply elem_of_nil in Hm.
  - cbn [synthesis_lines] in Hm. apply elem_of_cons in Hm as [->|Hm]; [done|].
    destruct (att i chunk).
    + by apply (IH (S i)).
    + apply elem_of_cons in Hm as [->|Hm]; [done | by apply (IH (S i))].
Qed.

Lemma survivors_filter (F : gset nat) (i : nat) (chunks : list str) :
  (forall j u, chunks !! j = Some u ->
     ((i + j)%nat ∈ F <-> exists e, att (i + j)%nat u = Raised e)) ->
  survivors att i chunks = filter (fun k => k ∉ F) (seq i (length chunks)).
Proof.
  revert i. induction chunks as [|chunk rest IH]; intros i HF; [done|].
  cbn [survivors length seq]. rewrite filter_cons.
  pose proof (HF O chunk eq_refl) as H0. rewrite Nat.add_0_r in H0.
  rewrite IH.
  - destruct (att i chunk) as [audio|e] eqn:Hr.
    + rewrite decide_True; [done|]. rewrite H0. by intros [e He].
    + rewrite decide_False; [done|]. intros Hn. apply Hn, H0. by exists e.
  - intros j u Hj. replace (S i + j)%nat with (i + S j)%nat by lia.
    by apply HF.
Qed.

Lemma survivors_all_fail (i : nat) (chunks : list str) (files : gmap string file) :
  (forall j u, chunks !! j = Some u -> exists e, att (i + j)%nat u = Raised e) ->
  survivors att i chunks = [] /\
  synthesized_files att output_dir i chunks files = files.
Proof.
  revert i. induction chunks as [|chunk rest IH]; intros i Hfail; [done|].
  cbn [survivors synthesized_files].
  destruct (Hfail O chunk eq_refl) as [e He]. rewrite Nat.add_0_r in He.
  rewrite He. apply IH. intros j u Hj.
  replace (S i + j)%nat with (i + S j)%nat by lia. by apply Hfail.
Qed.
End Attempts.

Lemma length_outside (F : gset nat) (n : nat) :
  (forall i, i ∈ F -> (i < n)%nat) ->
  length (filter (fun k => k ∉ F) (seq 0 n)) = (n - size F)%nat.
Proof.
  intros Hsub.
  assert (size F = length (filter (fun k => k ∈ F) (seq 0 n))) as ->.
  { unfold size, set_size. cbn. apply Permutation_length.
    apply NoDup_Permutation.
    - apply NoDup_elements.
    - apply NoDup_filter, NoDup_seq.
    - intros x. rewrite elem_of_elements, list_elem_of_filter, elem_of_seq.
      split; [|by intros [? _]]. intros Hx. split; [done|].
      specialize (Hsub x Hx). lia. }
  pose proof (Permutation_length (filter_app_complement (fun k => k ∈ F) (seq 0 n)))
    as Hlen.
  rewrite length_app, length_seq in Hlen. lia.
Qed.

(** C5 (as amended). Provided the output directory is there or can be
    made, for every sequence of units and every set [F] of indices, if
    synthesis fails on exactly the units whose index is in [F] (the model
    raises, or the chunk file cannot be written), the synthesis run
    returns, without raising, the chunk files of the other units in
    increasing order of index: as many as there are units, less the size
    of [F].  The chunk file of each of those units then holds the audio
    rendered for it, and no other path has changed since the directory
    was made. *)
Theorem synthesis_skips_failed_units (cfg : script) (render : synthesizer)
  (text : str) (speaker_wav_path output_dir : string) (w : world)
  (files1 : gmap string file) (F : gset nat) :
  let units := segment cfg text in
  makedirs_files output_dir (fs w) = (Returned tt, files1) ->
  (forall i, i ∈ F <->
     exists u e, units !! i = Some u /\
                 attempt render output_dir files1 i u = Raised e) ->
  exists artifacts w',
    generate_long_audio cfg render text speaker_wav_path output_dir w
    = (Returned artifacts, w') /\
    artifacts
    = (chunk_file_name output_dir
         <$> filter (fun i => i ∉ F) (seq 0 (length units))) /\
    length artifacts = (length units - size F)%nat /\
    (forall i u a,
       units !! i = Some u ->
       attempt render output_dir files1 i u = Returned a ->
       fs w' !! chunk_file_name output_dir i = Some (WavFile a)) /\
    (forall path, path ∉ artifacts -> fs w' !! path = files1 !! path).
Proof.
  intros units Hm HF.
  assert (survivors (attempt render output_dir files1) 0 units
          = filter (fun i => i ∉ F) (seq 0 (length units))) as Hsurv.
  { apply survivors_filter. intros j u Hj. cbn [Nat.add]. rewrite HF. split.
    - intros (u' & e & Hu' & He). exists e. congruence.
    - intros [e He]. by exists u, e. }
  rewrite (generate_long_audio_returned cfg render text speaker_wav_path
             output_dir w files1 Hm).
  fold units. eexists _, _. split; [done|]. cbn [fs].
  split; [by rewrite Hsurv|]. split; [|split].
  - rewrite length_fmap, Hsurv. apply length_outside.
    intros i (u & e & Hu & _)%HF. by apply lookup_lt_Some in Hu.
  - intros i u a Hu Ha.
    by apply (synthesized_files_survivor _ output_dir 0 i _ _ u a).
  - intros path Hp. by apply synthesized_files_other.
Qed.

(** ** Entry point *)

Lemma main_from_synthesis (cfg : script) (lib : pydub) (render : synthesizer)
  (story : str) (w : world) :
  fs w !! story_file_path = Some (TextFile story) ->
  is_Some (fs w !! speaker_voice_wav) ->
  main cfg lib render w
  = (story_chunks ←
       generate_long_audio cfg render story speaker_voice_wav "story_chunks";
     match story_chunks with
     | _ :: _ =>
         final_audio ←
           combine_audio_files lib (silence_ms cfg) story_chunks final_story;
         if announces_story cfg
         then print (MsgStoryCreated final_audio) else mret tt
     | [] => print MsgGenerationFailed
     end)
      (World (fs w) (stdout w ++ [MsgGenerating])).
Proof.
  intros Hstory Hspeaker. unfold main.
  rewrite (bind_returned _ _ w true w)
    by (unfold path_exists; by rewrite Hstory, bool_decide_eq_true_2).
  cbn [negb]. rewrite (bind_returned _ _ w tt w) by done.
  rewrite (bind_returned _ _ w true w)
    by (unfold path_exists; by rewrite bool_decide_eq_true_2).
  cbn [negb]. rewrite (bind_returned _ _ w tt w) by done.
  rewrite (bind_returned _ _ w story w)
    by (unfold read_text; by rewrite Hstory).
  by erewrite bind_returned by reflexivity.
Qed.

Lemma final_story_not_in_chain : final_story ∉ dir_chain "story_chunks".
Proof. vm_compute. by intros [=]%list_elem_of_singleton. Qed.

(** C6 (as amended). When the story and the voice sample are there, the
    chunk directory is there or can be made, and synthesis fails for
    every unit, the run ends by reporting that audio generation failed;
    the assembler is not entered (its first line is never printed), no
    chunk file is written, and the final output path holds what it held
    before. *)
Theorem total_synthesis_failure (cfg : script) (lib : pydub)
  (render : synthesizer) (story : str) (w : world)
  (files1 : gmap string file) :
  fs w !! story_file_path = Some (TextFile story) ->
  is_Some (fs w !! speaker_voice_wav) ->
  makedirs_files "story_chunks" (fs w) = (Returned tt, files1) ->
  (forall i u, segment cfg story !! i = Some u ->
     exists e, attempt render "story_chunks" files1 i u = Raised e) ->
  exists printed w',
    main cfg lib render w = (Returned tt, w') /\
    stdout w' = stdout w ++ printed /\
    last printed = Some MsgGenerationFailed /\
    (MsgCombining ∉ printed) /\
    fs w' = files1 /\
    (forall path, path <> "story_chunks"%string -> fs w' !! path = fs w !! path) /\
    fs w' !! final_story = fs w !! final_story.
Proof.
  intros Hstory Hspeaker Hm Hfail.
  set (att := attempt render "story_chunks" files1).
  set (units := segment cfg story).
  destruct (survivors_all_fail att "story_chunks" 0 units files1) as [Hnone Hfiles];
    [done|].
  exists ([MsgGenerating]
          ++ synthesis_lines att (length units) 0 units
          ++ [MsgGenerationFailed]).
  eexists. split; [|split; [|split; [|split; [|split; [|split]]]]].
  - rewrite (main_from_synthesis cfg lib render story w Hstory Hspeaker).
    erewrite bind_returned
      by (by apply (generate_long_audio_returned cfg render story
                      speaker_voice_wav "story_chunks" _ files1)).
    fold att units. rewrite Hnone, Hfiles. cbn [fmap list_fmap print fs stdout].
    reflexivity.
  - cbn [stdout]. by rewrite <- !app_assoc.
  - by rewrite !app_assoc, last_snoc.
  - rewrite !not_elem_of_app. split; [|split].
    + rewrite not_elem_of_cons. split; [done | apply not_elem_of_nil].
    + by intros Hin%synthesis_lines_only.
    + rewrite not_elem_of_cons. split; [done | apply not_elem_of_nil].
  - done.
  - intros path Hpath. cbn [fs].
    apply (makedirs_files_other _ _ _ _ _ Hm).
    vm_compute. intros Hin%list_elem_of_singleton. by subst path.
  - cbn [fs]. apply (makedirs_files_other _ _ _ _ _ Hm).
    apply final_story_not_in_chain.
Qed.

(** * Concrete runs *)

(** ** The regular-expression splits and the segmenters on small inputs *)

Example re_split_sentences_run :
  re_split_sentences (py "A.  B? ") = [py "A."; py "B?"; py ""].
Proof. reflexivity. Qed.

Example re_split_sentences_no_space :
  re_split_sentences (py "v1.2 is out!Now") = [py "v1.2 is out!Now"].
Proof. reflexivity. Qed.

Example re_split_sentences_empty : re_split_sentences (py "") = [py ""].
Proof. reflexivity. Qed.

Example re_split_clauses_run :
  re_split_clauses (py "a,,b: c")
  = [py "a"; py ","; py ""; py ","; py "b"; py ":"; py " c"].
Proof. reflexivity. Qed.

Example strip_run : strip (py "  a b  ") = py "a b".
Proof. reflexivity. Qed.

Example chunk_file_name_run :
  chunk_file_name "story_chunks" 7 = "story_chunks/chunk_0007.wav"%string /\
  chunk_file_name "audio_chunks" 123 = "audio_chunks/chunk_0123.wav"%string.
Proof. split; reflexivity. Qed.

Example smart_chunk_text_run :
  smart_chunk_text
    (py "Hello world. This is a test, with a clause; and more.") 20
  = [py "Hello world."; py "This is a test,"; py "with a clause;";
     py "and more."].
Proof. reflexivity. Qed.

(** C8. The character-budget segmenter can emit an empty unit: when a
    sentence does not fit and the accumulator is still empty, the
    accumulator is appended all the same.  Here the text is one sentence
    of exactly [max_chunk_size] characters. *)
Theorem smart_chunk_text_emits_empty_unit :
  smart_chunk_text (py "Hello") 5 = [py ""; py "Hello"].
Proof. reflexivity. Qed.

(** ** C1 *)

(** C1, on the sample text of the specification with a budget of 20. *)
Lemma segment_size_bound_witness :
  0 <= 20 /\
  Forall (char_unit_ok (py "Hello world. This is a test, with a clause; and more.") 20)
    (smart_chunk_text
       (py "Hello world. This is a test, with a clause; and more.") 20) /\
  Forall (token_unit_ok framed_char_tokenizer
            (py "Hello world. This is a test, with a clause; and more.") 20)
    (smart_chunk_text_token_limit framed_char_tokenizer
       (py "Hello world. This is a test, with a clause; and more.") 20).
Proof.
  split; [lia|].
  apply (segment_size_bound framed_char_tokenizer
           (py "Hello world. This is a test, with a clause; and more.") 20).
  lia.
Defined.

(** C1, as stated, fails for the token budget.
    Under the token budget a unit can be over the budget without being a
    single clause: with a budget of 10 tokens, the sentence below (18
    tokens, no clause of more than 9) is emitted whole. *)
Lemma token_unit_over_budget_is_no_clause :
  exists u,
    u ∈ smart_chunk_text_token_limit framed_char_tokenizer
          (py "One, two, three.") 10 /\
    ~ (token_count framed_char_tokenizer u <= 10 \/
       from_oversized_clause (token_count framed_char_tokenizer)
         (py "One, two, three.") 10 u).
Proof.
  exists (py "One, two, three."). split; [left|].
  intros [Hfit | (sentence & clause & Hs & Hc & Hsize & _)].
  - by vm_compute in Hfit.
  - vm_compute in Hs. apply list_elem_of_singleton in Hs. subst sentence.
    vm_compute in Hc. apply list_elem_of_In in Hc. simpl in Hc.
    destruct Hc as [<-|[<-|[<-|[<-|[<-|[]]]]]]; by vm_compute in Hsize.
Qed.

(** ** C7 *)

(** C7, on the second sentence of the sample text, after the first has been
    packed: the clauses go into three accumulators, of which the first two
    are emitted; and under a budget of 20 tokens the same sentence starts
    the next unit whole. *)
Lemma oversized_sentence_fallback_witness :
  let st := Chunker [] (py "Hello world. ") in
  let sentence := py "This is a test, with a clause; and more." in
  truthy (strip sentence) = true /\ 20 < len sentence /\
  20 < token_count framed_char_tokenizer
         (strip (current_chunk st ++ [space] ++ sentence)) /\
  (exists accs,
     greedy_packing 20 (current_chunk st) (re_split_clauses sentence) accs /\
     chunks (sentence_step 20 st sentence)
     = chunks st ++ (strip <$> removelast accs) /\
     last accs = Some (current_chunk (sentence_step 20 st sentence))) /\
  token_step framed_char_tokenizer 20 st sentence
  = Chunker [py "Hello world."] sentence.
Proof.
  intros st sentence.
  assert (truthy (strip sentence) = true) as H1 by reflexivity.
  assert (20 < len sentence) as H2 by reflexivity.
  assert (20 < token_count framed_char_tokenizer
                 (strip (current_chunk st ++ [space] ++ sentence))) as H3
    by reflexivity.
  split; [exact H1|]. split; [exact H2|]. split; [exact H3|].
  destruct (oversized_sentence_fallback framed_char_tokenizer 20 st sentence)
    as [Hchar Htoken].
  split; [apply (Hchar H1 H2) | apply (Htoken H3)].
Defined.

Example oversized_sentence_run :
  sentence_step 20 (Chunker [] (py "Hello world. "))
    (py "This is a test, with a clause; and more.")
  = Chunker [py "Hello world."; py "This is a test,"; py "with a clause;"]
      (py " and more.").
Proof. reflexivity. Qed.

(** C7, as stated, fails for the token budget.
    Under the token budget an oversized sentence is not split: with a
    budget of 10 tokens the sentence below has 25, none of its clauses
    has more than 8, and it still comes out whole, as one unit. *)
Lemma token_budget_has_no_clause_fallback :
  let sentence := py "Red, green; blue: done." in
  re_split_sentences sentence = [sentence] /\
  10 < token_count framed_char_tokenizer sentence /\
  Forall (fun clause => token_count framed_char_tokenizer clause <= 10)
    (re_split_clauses sentence) /\
  1 < len (re_split_clauses sentence) /\
  smart_chunk_text_token_limit framed_char_tokenizer sentence 10 = [sentence].
Proof.
  intros sentence. split; [reflexivity|]. split; [reflexivity|].
  split; [|split; reflexivity].
  vm_compute. repeat constructor; discriminate.
Qed.

(** ** C9 *)

(** C9. With a token budget below the token count of the empty string,
    the token-budget segmenter turns whitespace-only input into one empty
    unit, where the character-budget segmenter returns no unit on the
    same input. *)
Theorem token_segmenter_blank_unit :
  whitespace_only (py " ") /\
  smart_chunk_text_token_limit framed_char_tokenizer (py " ") 1 = [py ""] /\
  token_count framed_char_tokenizer (py "") = 2 /\
  smart_chunk_text (py " ") 1 = [].
Proof.
  split; [repeat constructor|]. split; [reflexivity|]. split; reflexivity.
Qed.

(** ** The file system on small inputs *)

Example path_split_run :
  path_split "story_chunks/chunk_0000.wav" = ("story_chunks", "chunk_0000.wav")%string /\
  path_split "futuristic_story.wav" = (EmptyString, "futuristic_story.wav"%string) /\
  dir_chain "a/b/c" = ["a"; "a/b"; "a/b/c"]%string.
Proof. repeat split. Qed.

Example makedirs_run_fresh :
  makedirs_files "story_chunks" (fs story_world)
  = (Returned tt, <["story_chunks"%string := Directory]> (fs story_world)).
Proof. reflexivity. Qed.

Example makedirs_run_blocked :
  makedirs_files "story_chunks" (fs file_in_the_way_world)
  = (Raised CouldntMakeDirs, fs file_in_the_way_world).
Proof. reflexivity. Qed.

Example export_run_no_directory :
  export (clip [1; 2]) "nodir/out.wav" empty_world = (Raised CouldntWrite, empty_world).
Proof. reflexivity. Qed.

(** ** The audio libraries of the concrete runs *)

Lemma ideal_pydub_exact : within_tolerance ideal_pydub 0.
Proof.
  split.
  - lia.
  - reflexivity.
  - intros d Hd. cbn [ideal_pydub duration_ms AudioSegment_silent raw_data].
    unfold len. rewrite repeat_length. lia.
  - intros a b. cbn [ideal_pydub duration_ms AudioSegment_add raw_data].
    rewrite len_app. lia.
Qed.

Lemma short_gap_pydub_tolerance : within_tolerance short_gap_pydub 1.
Proof.
  split.
  - lia.
  - reflexivity.
  - intros d Hd. cbn [short_gap_pydub duration_ms AudioSegment_silent raw_data].
    unfold len. rewrite repeat_length. lia.
  - intros a b. cbn [short_gap_pydub duration_ms AudioSegment_add raw_data].
    rewrite len_app. lia.
Qed.

(** ** C2 *)

(** C2, on two artifacts of 3 ms and 2 ms with a gap of 500 ms and a
    library that loses a millisecond on every silence. *)
Lemma assembled_track_duration_witness :
  within_tolerance short_gap_pydub 1 /\
  0 <= 500 /\
  Forall2 (fun path audio => fs two_chunk_world !! path = Some (WavFile audio))
    ["story_chunks/chunk_0000.wav"%string; "story_chunks/chunk_0001.wav"%string]
    [clip [1; 2; 3]; clip [4; 5]] /\
  can_write (fs two_chunk_world) final_story = true /\
  exists track w',
    combine_audio_files short_gap_pydub 500
      ["story_chunks/chunk_0000.wav"%string; "story_chunks/chunk_0001.wav"%string]
      final_story two_chunk_world
    = (Returned final_story, w') /\
    fs w' !! final_story = Some (WavFile track) /\
    Z.abs (duration_ms short_gap_pydub track
           - (total_duration short_gap_pydub [clip [1; 2; 3]; clip [4; 5]]
              + len ["story_chunks/chunk_0000.wav"%string;
                     "story_chunks/chunk_0001.wav"%string] * 500))
    <= 3 * len ["story_chunks/chunk_0000.wav"%string;
                "story_chunks/chunk_0001.wav"%string] * 1.
Proof.
  assert (0 <= 500) as H1 by lia.
  assert (Forall2
            (fun path audio => fs two_chunk_world !! path = Some (WavFile audio))
            ["story_chunks/chunk_0000.wav"%string;
             "story_chunks/chunk_0001.wav"%string]
            [clip [1; 2; 3]; clip [4; 5]]) as H2.
  { constructor; [reflexivity|]. constructor; [reflexivity|]. constructor. }
  assert (can_write (fs two_chunk_world) final_story = true) as H3 by reflexivity.
  split; [exact short_gap_pydub_tolerance|].
  split; [exact H1|]. split; [exact H2|]. split; [exact H3|].
  exact (assembled_track_duration short_gap_pydub 1 500 _ _ final_story
           two_chunk_world short_gap_pydub_tolerance H1 H2 H3).
Defined.

Example assembled_track_run :
  exists track,
    fs (snd (combine_audio_files short_gap_pydub 500
               ["story_chunks/chunk_0000.wav"%string;
                "story_chunks/chunk_0001.wav"%string]
               final_story two_chunk_world)) !! final_story
    = Some (WavFile track) /\
    duration_ms short_gap_pydub track = 1003.
Proof. eexists. split; [by vm_compute | by vm_compute]. Qed.

(** C2, as stated, fails.
    With a library that rounds nothing, one artifact of 1000 ms and a gap
    of 500 ms: the assembled track lasts 1500 ms, a whole gap more than
    the 1000 ms of the specification's figure. *)
Lemma assembled_track_has_trailing_gap :
  within_tolerance ideal_pydub 0 /\
  exists track w',
    combine_audio_files ideal_pydub 500 ["story_chunks/chunk_0000.wav"%string]
      final_story one_chunk_world
    = (Returned final_story, w') /\
    fs w' !! final_story = Some (WavFile track) /\
    duration_ms ideal_pydub track = 1500 /\
    spec_track_duration [1000] 500 = 1000 /\
    duration_ms ideal_pydub track - spec_track_duration [1000] 500 = 500.
Proof.
  split; [exact ideal_pydub_exact|].
  rewrite combine_audio_files_written by reflexivity. eexists _, _.
  split; [reflexivity|]. split; [apply lookup_insert_eq|].
  by vm_compute.
Qed.

(** ** C3 *)

(** C3, on one artifact whose file is missing: once with an output path
    that can be written, once with one whose directory is not there. *)
Lemma assembly_of_nothing_witness :
  (forall path audio,
     path ∈ ["story_chunks/chunk_0000.wav"%string] ->
     fs empty_world !! path <> Some (WavFile audio)) /\
  can_write (fs empty_world) final_story = true /\
  can_write (fs empty_world) "nodir/out.wav" = false /\
  (exists w',
     combine_audio_files ideal_pydub 500 ["story_chunks/chunk_0000.wav"%string]
       final_story empty_world
     = (Returned final_story, w') /\
     fs w' !! final_story = Some (WavFile (AudioSegment_empty ideal_pydub))) /\
  combine_audio_files ideal_pydub 500 ["story_chunks/chunk_0000.wav"%string]
    "nodir/out.wav" empty_world
  = (Raised CouldntWrite,
     World (fs empty_world)
       (stdout empty_world ++ [MsgCombining]
          ++ decode_errors (fs empty_world) ["story_chunks/chunk_0000.wav"%string])).
Proof.
  assert (forall path audio,
            path ∈ ["story_chunks/chunk_0000.wav"%string] ->
            fs empty_world !! path <> Some (WavFile audio)) as H.
  { intros path audio _. simpl. by rewrite lookup_empty. }
  assert (can_write (fs empty_world) final_story = true) as H1 by reflexivity.
  assert (can_write (fs empty_world) "nodir/out.wav" = false) as H2 by reflexivity.
  split; [exact H|]. split; [exact H1|]. split; [exact H2|].
  split.
  - exact (proj1 (assembly_of_nothing ideal_pydub 500 _ final_story empty_world H)
             H1).
  - exact (proj1 (proj2 (assembly_of_nothing ideal_pydub 500 _ "nodir/out.wav"
                           empty_world H) H2)).
Defined.

(** C3, as stated, fails.
    Given no artifacts at all, the assembler raises nothing: it returns
    the output path, and the output file is there, empty. *)
Lemma assembly_of_no_artifacts_writes_file :
  combine_audio_files ideal_pydub 500 [] final_story empty_world
  = (Returned final_story,
     World {[ final_story := WavFile (AudioSegment_empty ideal_pydub) ]}
           [MsgCombining; MsgFinalSaved final_story]) /\
  is_Some (({[ final_story := WavFile (AudioSegment_empty ideal_pydub) ]}
              : gmap string file) !! final_story).
Proof. split; [reflexivity | by eexists]. Qed.

(** ** C5 *)

Example synthesis_run_five_units :
  segment tiny_budget (py "One. Two. Three. Four. Five.")
  = [py "One."; py "Two."; py "Three."; py "Four."; py "Five."] /\
  fst (generate_long_audio tiny_budget fails_on_third
         (py "One. Two. Three. Four. Five.") speaker_voice_wav
         "story_chunks" story_world)
  = Returned ["story_chunks/chunk_0000.wav"%string;
              "story_chunks/chunk_0001.wav"%string;
              "story_chunks/chunk_0003.wav"%string;
              "story_chunks/chunk_0004.wav"%string].
Proof. split; reflexivity. Qed.

(** C5, on five units of which the third fails, in a fresh directory. *)
Lemma synthesis_skips_failed_units_witness :
  let units := segment tiny_budget (py "One. Two. Three. Four. Five.") in
  let files1 := <["story_chunks"%string := Directory]> (fs story_world) in
  makedirs_files "story_chunks" (fs story_world) = (Returned tt, files1) /\
  (forall i, i ∈ ({[ 2%nat ]} : gset nat) <->
             exists u e, units !! i = Some u /\
                         attempt fails_on_third "story_chunks" files1 i u
                         = Raised e) /\
  exists artifacts w',
    generate_long_audio tiny_budget fails_on_third
      (py "One. Two. Three. Four. Five.") speaker_voice_wav "story_chunks"
      story_world
    = (Returned artifacts, w') /\
    artifacts
    = (chunk_file_name "story_chunks"
         <$> filter (fun i => i ∉ ({[ 2%nat ]} : gset nat))
               (seq 0 (length units))) /\
    length artifacts = (length units - size ({[ 2%nat ]} : gset nat))%nat /\
    (forall i u a,
       units !! i = Some u ->
       attempt fails_on_third "story_chunks" files1 i u = Returned a ->
       fs w' !! chunk_file_name "story_chunks" i = Some (WavFile a)) /\
    (forall path, path ∉ artifacts -> fs w' !! path = files1 !! path).
Proof.
  intros units files1.
  assert (makedirs_files "story_chunks" (fs story_world) = (Returned tt, files1))
    as H0 by reflexivity.
  assert (forall i, i ∈ ({[ 2%nat ]} : gset nat) <->
            exists u e, units !! i = Some u /\
                        attempt fails_on_third "story_chunks" files1 i u
                        = Raised e) as H.
  { intros i. rewrite elem_of_singleton. split.
    - intros ->. exists (py "Three."), SynthesisFailed. split; reflexivity.
    - intros (u & e & Hu & Hr).
      destruct i as [|[|[|[|[|i]]]]]; try reflexivity;
        try (by vm_compute in Hu);
        vm_compute in Hu; injection Hu as <-; by vm_compute in Hr. }
  split; [exact H0|]. split; [exact H|].
  exact (synthesis_skips_failed_units tiny_budget fails_on_third
           (py "One. Two. Three. Four. Five.") speaker_voice_wav "story_chunks"
           story_world files1 {[ 2%nat ]} H0 H).
Defined.

(** C5, as stated, fails.
    With a regular file where the output directory is to be, the run
    aborts before the first unit: [os.makedirs] raises, nothing is
    returned and nothing is printed, although the synthesizer fails on
    each of the five units and the claim has the run return no artifacts
    without aborting. *)
Lemma synthesis_aborts_without_directory :
  length (segment tiny_budget (py "One. Two. Three. Four. Five.")) = 5%nat /\
  (forall i u, always_fails i u = None) /\
  fs file_in_the_way_world !! "story_chunks"%string = Some (TextFile (py "notes")) /\
  generate_long_audio tiny_budget always_fails
    (py "One. Two. Three. Four. Five.") speaker_voice_wav "story_chunks"
    file_in_the_way_world
  = (Raised CouldntMakeDirs, file_in_the_way_world).
Proof. repeat split. Qed.

(** ** C6 *)

(** C6, on a story of which no unit can be synthesized. *)
Lemma total_synthesis_failure_witness :
  let files1 := <["story_chunks"%string := Directory]> (fs story_world) in
  fs story_world !! story_file_path
  = Some (TextFile (py "One. Two. Three. Four. Five.")) /\
  is_Some (fs story_world !! speaker_voice_wav) /\
  makedirs_files "story_chunks" (fs story_world) = (Returned tt, files1) /\
  (forall i u,
     segment main2 (py "One. Two. Three. Four. Five.") !! i = Some u ->
     exists e, attempt always_fails "story_chunks" files1 i u = Raised e) /\
  exists printed w',
    main main2 ideal_pydub always_fails story_world = (Returned tt, w') /\
    stdout w' = stdout story_world ++ printed /\
    last printed = Some MsgGenerationFailed /\
    (MsgCombining ∉ printed) /\
    fs w' = files1 /\
    (forall path, path <> "story_chunks"%string ->
                  fs w' !! path = fs story_world !! path) /\
    fs w' !! final_story = fs story_world !! final_story.
Proof.
  intros files1.
  assert (fs story_world !! story_file_path
          = Some (TextFile (py "One. Two. Three. Four. Five."))) as H1
    by reflexivity.
  assert (is_Some (fs story_world !! speaker_voice_wav)) as H2
    by (eexists; reflexivity).
  assert (makedirs_files "story_chunks" (fs story_world) = (Returned tt, files1))
    as H3 by reflexivity.
  assert (forall i u,
            segment main2 (py "One. Two. Three. Four. Five.") !! i = Some u ->
            exists e, attempt always_fails "story_chunks" files1 i u = Raised e)
    as H4 by (intros i u _; by exists SynthesisFailed).
  split; [exact H1|]. split; [exact H2|]. split; [exact H3|]. split; [exact H4|].
  exact (total_synthesis_failure main2 ideal_pydub always_fails _ story_world
           files1 H1 H2 H3 H4).
Defined.

Example total_failure_run :
  main mac_cpu ideal_pydub always_fails story_world
  = (Returned tt,
     World (<["story_chunks"%string := Directory]> (fs story_world))
       [MsgGenerating;
        MsgProcessingChunk 1 1; MsgErrorProcessingChunk 0 SynthesisFailed;
        MsgGenerationFailed]) /\
  fs story_world !! final_story = None.
Proof. split; reflexivity. Qed.

(** C6, as stated, fails.
    With a regular file where the chunk directory is to be, and a
    synthesizer that fails on every unit, the run reports nothing: it
    aborts in [os.makedirs], and the line about the failed generation is
    never printed. *)
Lemma total_failure_not_reported_without_directory :
  fs file_in_the_way_world !! story_file_path
  = Some (TextFile (py "One. Two. Three. Four. Five.")) /\
  is_Some (fs file_in_the_way_world !! speaker_voice_wav) /\
  (forall i u, always_fails i u = None) /\
  main main2 ideal_pydub always_fails file_in_the_way_world
  = (Raised CouldntMakeDirs,
     World (fs file_in_the_way_world) [MsgGenerating]) /\
  (MsgGenerationFailed ∉ [MsgGenerating]).
Proof.
  split; [reflexivity|]. split; [by eexists|]. split; [done|].
  split; [reflexivity|].
  by intros [=]%list_elem_of_singleton.
Qed.

(** * Further properties *)

(** ** What the synthesis loop leaves behind *)

Lemma is_dir_same_lookup (files files' : gmap string file) (path : string) :
  files' !! path = files !! path -> is_dir files' path = is_dir files path.
Proof. intros H. unfold is_dir. by rewrite H. Qed.

(** After [os.makedirs], the synthesis of a unit fails only when the
    model raises or the path of its chunk file names a directory. *)
Lemma attempt_after_makedirs (render : synthesizer) (output_dir : string)
  (files files1 : gmap string file) (i : nat) (u : str) :
  makedirs_files output_dir files = (Returned tt, files1) ->
  attempt render output_dir files1 i u
  = match render i u with
    | None => Raised SynthesisFailed
    | Some audio =>
        if is_dir files (chunk_file_name output_dir i)
        then Raised CouldntWrite else Returned audio
    end.
Proof.
  intros Hm. destruct (makedirs_files_returned _ _ _ Hm) as [Hdir Hother].
  unfold attempt. rewrite can_write_chunk by done.
  rewrite (is_dir_same_lookup files files1)
    by (apply Hother, chunk_file_name_not_in_chain).
  by destruct (render i u), (is_dir files (chunk_file_name output_dir i)).
Qed.

(** X2. After a synthesis run whose output directory is there or could be
    made, the output directory is a directory; the chunk file of every
    unit on which the model delivered (and whose chunk path did not name
    a directory) holds the audio rendered for that unit and is among the
    returned artifacts; and every path that is neither a returned
    artifact nor one of the directories made holds what it held before. *)
Theorem synthesis_writes_only_artifacts (cfg : script) (render : synthesizer)
  (text : str) (speaker_wav_path output_dir : string) (w : world)
  (files1 : gmap string file) :
  makedirs_files output_dir (fs w) = (Returned tt, files1) ->
  exists artifacts w',
    generate_long_audio cfg render text speaker_wav_path output_dir w
    = (Returned artifacts, w') /\
    is_dir (fs w') output_dir = true /\
    (forall i u a,
       segment cfg text !! i = Some u -> render i u = Some a ->
       is_dir (fs w) (chunk_file_name output_dir i) = false ->
       chunk_file_name output_dir i ∈ artifacts /\
       fs w' !! chunk_file_name output_dir i = Some (WavFile a)) /\
    (forall path,
       path ∉ artifacts -> path ∉ dir_chain output_dir ->
       fs w' !! path = fs w !! path).
Proof.
  intros Hm. destruct (makedirs_files_returned _ _ _ Hm) as [Hdir Hother].
  rewrite (generate_long_audio_returned cfg render text speaker_wav_path
             output_dir w files1 Hm).
  eexists _, _. split; [done|]. cbn [fs]. split; [|split].
  - rewrite (is_dir_same_lookup files1); [done|].
    apply synthesized_files_other.
    intros [j [Hj _]]%list_elem_of_fmap.
    symmetry in Hj. by apply chunk_file_name_not_dir in Hj.
  - intros i u a Hu Ha Hfree.
    assert (attempt render output_dir files1 i u = Returned a) as Hatt.
    { rewrite (attempt_after_makedirs render output_dir (fs w) files1 i u Hm).
      by rewrite Ha, Hfree. }
    split.
    + apply list_elem_of_fmap_2, elem_of_survivors. by exists i, u, a.
    + by apply (synthesized_files_survivor _ output_dir 0 i _ _ u a).
  - intros path Hp Hchain. rewrite synthesized_files_other by done.
    by apply Hother.
Qed.

(** X3. A synthesis run over N units whose output directory is there or
    could be made prints the progress lines "Processing chunk 1/N" to
    "Processing chunk N/N", in this order, and one error line for each
    unit that yields no artifact.  When the output directory cannot be
    made, the run raises the error of [os.makedirs] before it segments
    the text: no line is printed and no unit is synthesized. *)
Theorem synthesis_progress_report (cfg : script) (render : synthesizer)
  (text : str) (speaker_wav_path output_dir : string) (w : world) :
  (forall files1,
     makedirs_files output_dir (fs w) = (Returned tt, files1) ->
     exists artifacts printed files,
       generate_long_audio cfg render text speaker_wav_path output_dir w
       = (Returned artifacts, World files (stdout w ++ printed)) /\
       List.filter is_progress_line printed
       = (fun k => MsgProcessingChunk (k + 1) (length (segment cfg text)))
           <$> seq 0 (length (segment cfg text)) /\
       (length (List.filter is_synthesis_error_line printed)
        + length artifacts)%nat
       = length (segment cfg text)) /\
  (forall e files1,
     makedirs_files output_dir (fs w) = (Raised e, files1) ->
     generate_long_audio cfg render text speaker_wav_path output_dir w
     = (Raised e, World files1 (stdout w))).
Proof.
  split.
  - intros files1 Hm.
    rewrite (generate_long_audio_returned cfg render text speaker_wav_path
               output_dir w files1 Hm).
    eexists _, _, _. split; [done|]. split; [apply progress_lines|].
    rewrite length_fmap. apply error_lines_count.
  - intros e files1 Hm. by apply generate_long_audio_raised.
Qed.

(** ** Assembly with artifacts that do not decode *)

(** X4. An artifact that does not decode never stops the assembler: it
    is skipped, with one error line.  The only error the assembler can
    raise is that of the final export.  When the output path can be
    written, the assembler returns it, the output file holds the
    artifacts that decode, in order, each followed by the silence, and
    every other file is left as it was; when the output path cannot be
    written, the export raises after the loop, and no file has changed. *)
Theorem assembly_skips_undecodable (lib : pydub) (silence : Z)
  (audio_files : list string) (final_output : string) (w : world) :
  let track := assemble lib silence (decoded (fs w) audio_files) in
  let lines := [MsgCombining] ++ decode_errors (fs w) audio_files in
  (can_write (fs w) final_output = true ->
   combine_audio_files lib silence audio_files final_output w
   = (Returned final_output,
      World (<[final_output := WavFile track]> (fs w))
        (stdout w ++ lines ++ [MsgFinalSaved final_output]))) /\
  (can_write (fs w) final_output = false ->
   combine_audio_files lib silence audio_files final_output w
   = (Raised CouldntWrite, World (fs w) (stdout w ++ lines))).
Proof.
  intros track lines. split; intros Hw.
  - rewrite combine_audio_files_written by done.
    unfold lines. by rewrite <- !app_assoc.
  - by rewrite combine_audio_files_not_written by done.
Qed.

(** X5. For every sequence of artifacts, decodable or not, every gap that
    is not negative and every output path that can be written, the
    assembled track lasts, within three rounding errors of the audio
    library per decoded artifact, the sum of the durations of the
    artifacts that decode plus one gap for each of them; the artifacts
    that do not decode add nothing, and there are as many error lines as
    there are of those. *)
Theorem assembled_duration_with_failures (lib : pydub) (tol : Z) (silence : Z)
  (audio_files : list string) (final_output : string) (w : world) :
  within_tolerance lib tol ->
  0 <= silence ->
  can_write (fs w) final_output = true ->
  exists track w',
    combine_audio_files lib silence audio_files final_output w
    = (Returned final_output, w') /\
    fs w' !! final_output = Some (WavFile track) /\
    Z.abs (duration_ms lib track
           - (total_duration lib (decoded (fs w) audio_files)
              + len (decoded (fs w) audio_files) * silence))
    <= 3 * len (decoded (fs w) audio_files) * tol /\
    len (decoded (fs w) audio_files) + len (decode_errors (fs w) audio_files)
    = len audio_files.
Proof.
  intros Htol Hs Hw. rewrite combine_audio_files_written by done.
  eexists _, _. split; [done|]. cbn [fs]. split; [apply lookup_insert_eq|].
  split; [by apply assemble_duration|].
  unfold len. rewrite <- (decoded_decode_errors_length (fs w) audio_files). lia.
Qed.

(** ** The entry point *)

(** X6. Without the story file the run stops at once: it prints that the
    story was not found and exits; nothing is synthesized, nothing is
    written, whatever the synthesizer and the other files are. *)
Theorem main_without_story (cfg : script) (lib : pydub) (render : synthesizer)
  (w : world) :
  fs w !! story_file_path = None ->
  main cfg lib render w
  = (Raised SystemExit, World (fs w) (stdout w ++ [MsgStoryNotFound])).
Proof.
  intros Hstory. unfold main.
  rewrite (bind_returned _ _ w false w).
  - cbn [negb]. by erewrite bind_raised by reflexivity.
  - unfold path_exists. rewrite Hstory, bool_decide_eq_false_2; [done|].
    by intros [? ?].
Qed.

(** X7. With the story file there but without the voice sample the run
    stops before reading the story: it prints the two lines about the
    speaker file and exits; nothing is synthesized and nothing is
    written. *)
Theorem main_without_speaker (cfg : script) (lib : pydub) (render : synthesizer)
  (w : world) :
  is_Some (fs w !! story_file_path) ->
  fs w !! speaker_voice_wav = None ->
  main cfg lib render w
  = (Raised SystemExit,
     World (fs w) (stdout w ++ [MsgSpeakerNotFound; MsgProvideValidWav])).
Proof.
  intros Hstory Hspeaker. unfold main.
  rewrite (bind_returned _ _ w true w)
    by (unfold path_exists; by rewrite bool_decide_eq_true_2).
  cbn [negb]. rewrite (bind_returned _ _ w tt w) by done.
  rewrite (bind_returned _ _ w false w).
  - cbn [negb]. erewrite bind_raised; [|reflexivity].
    cbn [fs stdout]. by rewrite <- app_assoc.
  - unfold path_exists. rewrite Hspeaker, bool_decide_eq_false_2; [done|].
    by intros [? ?].
Qed.

Lemma survivors_nonempty (att : nat -> str -> outcome AudioSegment) (i j : nat)
  (chunks : list str) (u : str) (a : AudioSegment) :
  chunks !! j = Some u -> att (i + j)%nat u = Returned a ->
  survivors att i chunks <> [].
Proof.
  intros Hj Ha Hnil.
  assert ((i + j)%nat ∈ survivors att i chunks) as Hin.
  { apply elem_of_survivors. by exists j, u, a. }
  rewrite Hnil in Hin. by apply elem_of_nil in Hin.
Qed.

Lemma final_story_no_chunk_file (i : nat) :
  chunk_file_name "story_chunks" i <> final_story.
Proof.
  intros H. pose proof (chunk_file_name_length "story_chunks" i) as Hlen.
  rewrite H in Hlen. vm_compute in Hlen. lia.
Qed.

(** The final story can be written after a synthesis run as long as its
    path did not name a directory before the run. *)
Lemma can_write_final_story (att : nat -> str -> outcome AudioSegment)
  (units : list str) (files files1 : gmap string file) :
  makedirs_files "story_chunks" files = (Returned tt, files1) ->
  is_dir files final_story = false ->
  can_write (synthesized_files att "story_chunks" 0 units files1) final_story
  = true.
Proof.
  intros Hm Hfree. unfold can_write.
  rewrite (is_dir_same_lookup files (synthesized_files _ _ _ _ _) final_story).
  - by rewrite Hfree.
  - rewrite synthesized_files_other.
    + apply (makedirs_files_other _ _ _ _ _ Hm), final_story_not_in_chain.
    + intros [j [Hj _]]%list_elem_of_fmap.
      symmetry in Hj. by apply final_story_no_chunk_file in Hj.
Qed.

(** X8. With both input files there, the chunk directory there or made,
    a final path that does not name a directory, and at least one unit
    whose synthesis succeeds, the run returns normally and the final
    story file holds, in unit order, the audio of every unit that was
    synthesized, each followed by the script's silence; the units that
    failed are left out, and the track lasts, within three rounding
    errors of the audio library per synthesized unit, the sum of the
    rendered durations plus one gap for each. *)
Theorem main_assembles_synthesized_units (cfg : script) (lib : pydub) (tol : Z)
  (render : synthesizer) (story : str) (w : world) (files1 : gmap string file) :
  fs w !! story_file_path = Some (TextFile story) ->
  is_Some (fs w !! speaker_voice_wav) ->
  makedirs_files "story_chunks" (fs w) = (Returned tt, files1) ->
  (exists i u a,
     segment cfg story !! i = Some u /\
     attempt render "story_chunks" files1 i u = Returned a) ->
  is_dir (fs w) final_story = false ->
  within_tolerance lib tol ->
  0 <= silence_ms cfg ->
  let audios :=
    rendered_audio (attempt render "story_chunks" files1) 0 (segment cfg story) in
  exists track printed w',
    main cfg lib render w = (Returned tt, w') /\
    fs w' !! final_story = Some (WavFile track) /\
    track = assemble lib (silence_ms cfg) audios /\
    Z.abs (duration_ms lib track
           - (total_duration lib audios + len audios * silence_ms cfg))
    <= 3 * len audios * tol /\
    stdout w' = stdout w ++ printed /\
    (MsgGenerationFailed ∉ printed) /\
    last printed
    = Some (if announces_story cfg
            then MsgStoryCreated final_story else MsgFinalSaved final_story).
Proof.
  intros Hstory Hspeaker Hm (i & u & a & Hu & Ha) Hfree Htol Hs audios.
  set (att := attempt render "story_chunks" files1) in *.
  rewrite (main_from_synthesis cfg lib render story w Hstory Hspeaker).
  erewrite bind_returned
    by (by apply (generate_long_audio_returned cfg render story
                    speaker_voice_wav "story_chunks" _ files1)).
  fold att.
  pose proof (survivors_nonempty att 0 i _ u a Hu Ha) as Hne.
  remember (chunk_file_name "story_chunks"
              <$> survivors att 0 (segment cfg story)) as names eqn:Hnames.
  destruct names as [|n ns].
  { symmetry in Hnames. by apply fmap_nil_inv in Hnames. }
  erewrite bind_returned
    by (apply combine_audio_files_written;
        by apply (can_write_final_story att _ (fs w))).
  cbn [fs stdout].
  rewrite Hnames, decoded_synthesized, decode_errors_synthesized.
  fold audios.
  assert (MsgGenerationFailed
            ∉ synthesis_lines att (length (segment cfg story)) 0
                (segment cfg story)) as Hlines
    by (by intros Hin%synthesis_lines_only).
  destruct (announces_story cfg).
  - eexists _, _, _. split; [reflexivity|]. cbn [fs stdout].
    split; [apply lookup_insert_eq|]. split; [done|].
    split; [by apply assemble_duration|].
    split; [by rewrite <- !app_assoc|].
    split.
    + rewrite !not_elem_of_app, !not_elem_of_cons.
      repeat split; try done; try apply not_elem_of_nil.
    + by rewrite !app_assoc, last_snoc.
  - eexists _, _, _. split; [reflexivity|]. cbn [fs stdout].
    split; [apply lookup_insert_eq|]. split; [done|].
    split; [by apply assemble_duration|].
    split; [by rewrite <- !app_assoc|].
    split.
    + rewrite !not_elem_of_app, !not_elem_of_cons.
      repeat split; try done; try apply not_elem_of_nil.
    + by rewrite !app_assoc, last_snoc.
Qed.

(** ** A blank story *)

(** X14. When the story file holds only whitespace (or nothing), the two
    character-budget scripts, and the token-budget script as long as the
    empty string is within its 400 tokens, make no synthesis call at all:
    once the chunk directory is there or made, the run prints that it is
    generating and that audio generation failed, and returns; apart from
    the chunk directory, every path holds what it held before. *)
Theorem main_on_blank_story (cfg : script) (lib : pydub) (render : synthesizer)
  (story : str) (w : world) (files1 : gmap string file) :
  fs w !! story_file_path = Some (TextFile story) ->
  is_Some (fs w !! speaker_voice_wav) ->
  whitespace_only story ->
  cfg = mac_cpu \/ cfg = main2 \/
  (exists encode, cfg = windows_cuda encode /\ token_count encode [] <= 400) ->
  makedirs_files "story_chunks" (fs w) = (Returned tt, files1) ->
  main cfg lib render w
  = (Returned tt,
     World files1 (stdout w ++ [MsgGenerating; MsgGenerationFailed])) /\
  is_dir files1 "story_chunks" = true /\
  (forall path, path <> "story_chunks"%string -> files1 !! path = fs w !! path).
Proof.
  intros Hstory Hspeaker Hblank Hcfg Hm.
  assert (segment cfg story = []) as Hseg.
  { destruct Hcfg as [->|[->|(encode & -> & Henc)]]; cbn [segment].
    - by apply smart_chunk_text_blank.
    - by apply smart_chunk_text_blank.
    - by apply smart_chunk_text_token_limit_blank. }
  destruct (makedirs_files_returned _ _ _ Hm) as [Hdir Hother].
  split; [|split; [done|]].
  - rewrite (main_from_synthesis cfg lib render story w Hstory Hspeaker).
    erewrite bind_returned
      by (by apply (generate_long_audio_returned cfg render story
                      speaker_voice_wav "story_chunks" _ files1)).
    rewrite Hseg. unfold print.
    cbn [survivors synthesized_files synthesis_lines fmap list_fmap fs stdout].
    by rewrite app_nil_r, <- app_assoc.
  - intros path Hpath. apply Hother.
    vm_compute. intros Hin%list_elem_of_singleton. by subst path.
Qed.

(** ** The shape of the sentences *)

Lemma terminal_not_space (c : char) : is_terminal c = true -> isspace c = false.
Proof.
  intros H. destruct (isspace c) eqn:Hc; [|done].
  by rewrite (space_not_terminal c Hc) in H.
Qed.

Lemma re_split_sentences_from_nonempty (in_match : bool) (piece text : str) :
  re_split_sentences_from in_match piece text <> [].
Proof.
  revert in_match piece. induction text as [|c rest IH]; intros b piece; simpl.
  - done.
  - destruct (b && isspace c); [apply IH|].
    destruct (is_terminal c && starts_with_space rest); [done | apply IH].
Qed.

Lemma starts_with_space_snoc (p : str) (c : char) :
  starts_with_space (p ++ [c])
  = match p with [] => isspace c | _ => starts_with_space p end.
Proof. by destruct p. Qed.

Lemma has_sentence_end_snoc (p : str) (c : char) :
  has_sentence_end (p ++ [c])
  = has_sentence_end p
    || match last p with
       | Some t => is_terminal t && isspace c
       | None => false
       end.
Proof.
  induction p as [|a p IH]; [simpl; by rewrite andb_false_r|].
  destruct p as [|b p].
  - simpl. by destruct (is_terminal a), (isspace c), (is_terminal c).
  - change (has_sentence_end ((a :: b :: p) ++ [c]))
      with (is_terminal a && isspace b || has_sentence_end ((b :: p) ++ [c])).
    rewrite IH.
    change (last (a :: b :: p)) with (last (b :: p)).
    change (has_sentence_end (a :: b :: p))
      with (is_terminal a && isspace b || has_sentence_end (b :: p)).
    by rewrite orb_assoc.
Qed.

Lemma re_split_sentences_from_no_inner_end (in_match : bool) (piece text : str) :
  has_sentence_end piece = false ->
  (forall t, last piece = Some t -> is_terminal t = true ->
             starts_with_space text = false) ->
  Forall (fun s => has_sentence_end s = false)
    (re_split_sentences_from in_match piece text).
Proof.
  revert in_match piece.
  induction text as [|c rest IH]; intros b piece Hpiece Hlast; simpl.
  - by constructor.
  - assert (has_sentence_end (piece ++ [c]) = false) as Hsnoc.
    { rewrite has_sentence_end_snoc, Hpiece. simpl.
      destruct (last piece) as [t|] eqn:Ht; [|done].
      destruct (is_terminal t) eqn:Hterm; [|done]. simpl.
      by apply (Hlast t). }
    destruct (b && isspace c) eqn:Hskip.
    + apply IH; [done|]. intros t Ht Hterm.
      apply andb_true_iff in Hskip as [_ Hc].
      specialize (Hlast t Ht Hterm). simpl in Hlast. congruence.
    + destruct (is_terminal c && starts_with_space rest) eqn:Hsplit.
      * constructor; [done|]. apply IH; [done | done].
      * apply IH; [done|]. intros t Ht Hterm.
        rewrite last_snoc in Ht. injection Ht as <-.
        by rewrite Hterm in Hsplit.
Qed.

Lemma re_split_sentences_from_ends (in_match : bool) (piece text : str) :
  Forall ends_with_terminal
    (removelast (re_split_sentences_from in_match piece text)).
Proof.
  revert in_match piece. induction text as [|c rest IH]; intros b piece.
  - constructor.
  - cbn [re_split_sentences_from]. destruct (b && isspace c); [apply IH|].
    destruct (is_terminal c && starts_with_space rest) eqn:Hsplit; [|apply IH].
    apply andb_true_iff in Hsplit as [Hc _].
    pose proof (re_split_sentences_from_nonempty true [] rest) as Hne.
    cbn [removelast].
    destruct (re_split_sentences_from true [] rest) as [|x l] eqn:E; [done|].
    constructor; [|rewrite <- E; apply IH].
    exists c. by rewrite last_snoc.
Qed.

Lemma re_split_sentences_from_starts (in_match : bool) (piece text : str) :
  (piece <> [] -> starts_with_space piece = false) ->
  (piece = [] -> in_match = true) ->
  Forall (fun s => starts_with_space s = false)
    (re_split_sentences_from in_match piece text).
Proof.
  revert in_match piece.
  induction text as [|c rest IH]; intros b piece Hhead Hnil; simpl.
  - constructor; [|done]. destruct piece; [done | by apply Hhead].
  - destruct (b && isspace c) eqn:Hskip; [by apply IH|].
    assert (isspace c = false \/ piece <> []) as Hc.
    { destruct piece; [|by right]. left. rewrite Hnil in Hskip; done. }
    assert (starts_with_space (piece ++ [c]) = false) as Hsnoc.
    { rewrite starts_with_space_snoc. destruct piece as [|a p].
      - by destruct Hc.
      - by apply Hhead. }
    destruct (is_terminal c && starts_with_space rest).
    + constructor; [done|]. by apply IH.
    + apply IH; [done|]. by destruct piece.
Qed.

Lemma re_split_sentences_from_tail_starts (in_match : bool) (piece text : str) :
  Forall (fun s => starts_with_space s = false)
    (tail (re_split_sentences_from in_match piece text)).
Proof.
  revert in_match piece. induction text as [|c rest IH]; intros b piece; simpl.
  - constructor.
  - destruct (b && isspace c); [apply IH|].
    destruct (is_terminal c && starts_with_space rest); [|apply IH].
    simpl. by apply re_split_sentences_from_starts.
Qed.

(** X9. The sentence split always returns at least one sentence; every
    sentence but the last ends in [.], [!] or [?]; every sentence but the
    first starts with a character that is not whitespace (or is empty);
    and no sentence has a sentence end left inside it. *)
Theorem sentences_shape (text : str) :
  re_split_sentences text <> [] /\
  Forall ends_with_terminal (removelast (re_split_sentences text)) /\
  Forall (fun s => starts_with_space s = false) (tail (re_split_sentences text)) /\
  Forall (fun s => has_sentence_end s = false) (re_split_sentences text).
Proof.
  split; [apply re_split_sentences_from_nonempty|].
  split; [apply re_split_sentences_from_ends|].
  split; [apply re_split_sentences_from_tail_starts|].
  by apply re_split_sentences_from_no_inner_end.
Qed.

(** ** Units that are not empty *)

Lemma non_whitespace_nil (s : str) :
  non_whitespace s = [] -> Forall (fun c => isspace c = true) s.
Proof.
  induction s as [|c s IH]; [constructor|].
  rewrite non_whitespace_cons. unfold non_whitespace at 1. simpl.
  destruct (isspace c) eqn:Hc; simpl; [|done].
  intros H. constructor; [done | by apply IH].
Qed.

Lemma strip_nil_blank (s : str) : strip s = [] <-> non_whitespace s = [].
Proof.
  split.
  - intros H. by rewrite <- (non_whitespace_strip s), H.
  - intros H. by apply strip_all_space, non_whitespace_nil.
Qed.

Lemma truthy_strip_nonblank (s : str) : truthy (strip s) = true <-> nonblank s.
Proof.
  unfold nonblank. rewrite <- strip_nil_blank. by destruct (strip s).
Qed.

Lemma nonblank_strip (s : str) : nonblank s -> nonblank (strip s).
Proof. unfold nonblank. by rewrite non_whitespace_strip. Qed.

Lemma nonblank_app_l (s t : str) : nonblank s -> nonblank (s ++ t).
Proof.
  unfold nonblank. rewrite non_whitespace_app. by destruct (non_whitespace s).
Qed.

Lemma nonblank_app_r (s t : str) : nonblank t -> nonblank (s ++ t).
Proof.
  unfold nonblank. rewrite non_whitespace_app.
  intros Ht H. by apply app_eq_nil in H as [_ H].
Qed.

Lemma nonblank_nonempty (s : str) : nonblank s -> s <> [].
Proof. by intros H ->. Qed.

Lemma re_split_sentences_from_nonblank (in_match : bool) (piece text : str) :
  nonblank piece \/ (piece = [] /\ in_match = true) \/
  (in_match = false /\ nonblank text) ->
  Forall (fun s => s = [] \/ nonblank s)
    (re_split_sentences_from in_match piece text).
Proof.
  revert in_match piece.
  induction text as [|c rest IH]; intros b piece Hq; simpl.
  - constructor; [|done].
    destruct Hq as [H|[[-> _]|[_ H]]]; [by right | by left | done].
  - destruct (b && isspace c) eqn:Hskip.
    + apply andb_true_iff in Hskip as [-> Hc]. apply IH.
      destruct Hq as [H|[H|[H _]]]; [by left | by right; left | done].
    + destruct (is_terminal c && starts_with_space rest) eqn:Hsplit.
      * apply andb_true_iff in Hsplit as [Hc _]. constructor.
        -- right. apply nonblank_app_r. unfold nonblank, non_whitespace. simpl.
           by rewrite (terminal_not_space c Hc).
        -- apply IH. right; left. done.
      * apply IH. destruct (isspace c) eqn:Hc.
        -- destruct b; [done|].
           destruct Hq as [H|[[_ H]|[_ H]]]; [| done |].
           ++ left. by apply nonblank_app_l.
           ++ right; right. split; [done|].
              unfold nonblank in *. rewrite non_whitespace_cons in H.
              by rewrite (non_whitespace_space c Hc) in H.
        -- left. apply nonblank_app_r. unfold nonblank, non_whitespace. simpl.
           by rewrite Hc.
Qed.

Lemma token_step_nonblank encode M st sentence :
  sentence = [] \/ nonblank sentence ->
  Forall nonblank (chunks st) /\
  (current_chunk st = [] \/ nonblank (current_chunk st)) ->
  Forall nonblank (chunks (token_step encode M st sentence)) /\
  (current_chunk (token_step encode M st sentence) = [] \/
   nonblank (current_chunk (token_step encode M st sentence))).
Proof.
  intros Hs [Hch Hcur]. unfold token_step. cbv zeta.
  destruct (_ <=? _); cbn [chunks current_chunk].
  - split; [done|].
    destruct (strip (current_chunk st ++ [space] ++ sentence)) as [|c u] eqn:E;
      [by left | right].
    rewrite <- E. apply nonblank_strip. unfold nonblank.
    intros Hnil. apply strip_nil_blank in Hnil. by rewrite Hnil in E.
  - split; [|done].
    destruct (current_chunk st) as [|c cur] eqn:E; [done|]. cbn [truthy].
    apply Forall_app. split; [done|]. constructor; [|done].
    apply nonblank_strip. by destruct Hcur.
Qed.

(** X10. On a text that has at least one character that is not
    whitespace, every unit of the token-budget segmenter holds a
    character that is not whitespace: it emits no empty unit, whatever the
    budget and the tokenizer. *)
Theorem token_units_nonblank (encode : tokenizer) (text : str) (M : Z) :
  nonblank text ->
  Forall nonblank (smart_chunk_text_token_limit encode text M).
Proof.
  intros Htext.
  pose proof (re_split_sentences_from_nonblank false [] text
                (or_intror (or_intror (conj eq_refl Htext)))) as Hsent.
  rewrite Forall_forall in Hsent.
  assert (Forall nonblank
            (chunks (fold_left (token_step encode M) (re_split_sentences text)
                       chunker_init)) /\
          (current_chunk (fold_left (token_step encode M)
                            (re_split_sentences text) chunker_init) = [] \/
           nonblank (current_chunk (fold_left (token_step encode M)
                                      (re_split_sentences text) chunker_init))))
    as [Hch Hcur].
  { apply (fold_left_invariant
             (fun st => Forall nonblank (chunks st) /\
                        (current_chunk st = [] \/ nonblank (current_chunk st)))).
    - split; [constructor | by left].
    - intros st s Hs. apply token_step_nonblank. by apply Hsent. }
  unfold smart_chunk_text_token_limit, final_flush.
  destruct (current_chunk _) as [|c cur] eqn:E; [done|]. cbn [truthy].
  apply Forall_app. split; [done|]. constructor; [|done].
  apply nonblank_strip. by destruct Hcur.
Qed.

Lemma token_step_count encode M st sentence :
  (length (final_flush (token_step encode M st sentence))
   <= length (final_flush st) + 1)%nat.
Proof.
  unfold token_step, final_flush. cbv zeta.
  destruct (_ <=? _); cbn [chunks current_chunk].
  - destruct (truthy (strip _)), (truthy (current_chunk st));
      rewrite ?length_app; simpl; lia.
  - destruct (truthy sentence), (truthy (current_chunk st));
      rewrite ?length_app; simpl; lia.
Qed.

Lemma token_fold_count encode M (l : list str) st :
  (length (final_flush (fold_left (token_step encode M) l st))
   <= length (final_flush st) + length l)%nat.
Proof.
  revert st. induction l as [|s l IH]; intros st; simpl; [lia|].
  pose proof (IH (token_step encode M st s)).
  pose proof (token_step_count encode M st s). lia.
Qed.

(** X11. The token-budget segmenter never returns more units than the
    text has sentences: it only ever joins whole sentences, it never
    splits one. *)
Theorem token_units_at_most_sentences (encode : tokenizer) (text : str) (M : Z) :
  (length (smart_chunk_text_token_limit encode text M)
   <= length (re_split_sentences text))%nat.
Proof.
  unfold smart_chunk_text_token_limit.
  pose proof (token_fold_count encode M (re_split_sentences text) chunker_init)
    as H.
  by simpl in H.
Qed.

(** ** Texts whose sentences are all short *)

Section ShortSentences.
Variable M : Z.

Lemma short_acc_flush (cur : str) :
  cur <> [] -> short_acc M cur -> short_unit M (strip cur).
Proof.
  intros Hne [->|(x & -> & Hx & Hlen)]; [done|].
  rewrite (strip_snoc_space x space eq_refl). split; [by apply nonblank_strip|].
  rewrite len_app in Hlen. change (len [space]) with 1 in Hlen.
  pose proof (strip_length x). lia.
Qed.

Lemma sentence_step_short st sentence :
  len sentence < M ->
  Forall (short_unit M) (chunks st) /\ short_acc M (current_chunk st) ->
  Forall (short_unit M) (chunks (sentence_step M st sentence)) /\
  short_acc M (current_chunk (sentence_step M st sentence)).
Proof.
  intros Hs [Hch Hcur]. unfold sentence_step.
  destruct (truthy (strip sentence)) eqn:Hblank; cbn [negb]; [|done].
  apply truthy_strip_nonblank in Hblank.
  destruct (Z.leb_spec (len (current_chunk st) + len sentence + 1) M)
    as [Hfit|Hnofit]; cbn [chunks current_chunk].
  - split; [done|]. right. exists (current_chunk st ++ sentence).
    split; [by rewrite <- app_assoc|]. split; [by apply nonblank_app_r|].
    rewrite !len_app. change (len [space]) with 1. lia.
  - destruct (Z.gtb_spec (len sentence) M) as [Hlong|_]; [lia|].
    assert (current_chunk st <> []) as Hne.
    { intros Hnil. rewrite Hnil in Hnofit. change (len (@nil char)) with 0 in Hnofit.
      lia. }
    split.
    + apply flush_and_restart_Forall; [done | by apply short_acc_flush].
    + right. exists sentence. cbn [flush_and_restart current_chunk].
      split; [done|]. split; [done|].
      rewrite len_app. change (len [space]) with 1. lia.
Qed.

Lemma smart_chunk_text_short (text : str) :
  (forall s, s ∈ re_split_sentences text -> len s < M) ->
  Forall (short_unit M) (smart_chunk_text text M).
Proof.
  intros Hshort.
  assert (Forall (short_unit M)
            (chunks (fold_left (sentence_step M) (re_split_sentences text)
                       chunker_init)) /\
          short_acc M
            (current_chunk (fold_left (sentence_step M)
                              (re_split_sentences text) chunker_init)))
    as [Hch Hcur].
  { apply (fold_left_invariant
             (fun st => Forall (short_unit M) (chunks st) /\
                        short_acc M (current_chunk st))).
    - split; [constructor | by left].
    - intros st s Hs. apply sentence_step_short. by apply Hshort. }
  unfold smart_chunk_text, final_flush.
  destruct (current_chunk _) as [|c cur] eqn:E; [done|]. cbn [truthy].
  apply Forall_app. split; [done|]. constructor; [|done].
  by apply short_acc_flush.
Qed.
End ShortSentences.

(** X12. When every sentence of the text is shorter than
    [max_chunk_size], every unit of the character-budget segmenter holds
    a character that is not whitespace and is shorter than
    [max_chunk_size]: no empty unit, no oversized unit, and the budget is
    never reached exactly. *)
Theorem short_sentences_give_short_units (text : str) (M : Z) :
  (forall s, s ∈ re_split_sentences text -> len s < M) ->
  Forall (fun u => nonblank u /\ len u < M) (smart_chunk_text text M).
Proof. apply smart_chunk_text_short. Qed.

(** ** Texts that fit into one unit *)

Lemma packed_len_nonneg (l : list str) : 0 <= packed_len l.
Proof.
  induction l as [|s l IH]; simpl; [lia|]. pose proof (len_nonneg s). lia.
Qed.

Lemma re_split_sentences_from_packed (in_match : bool) (piece text : str) :
  packed_len (re_split_sentences_from in_match piece text)
  <= len piece + len text
     + (if in_match && starts_with_space text then 0 else 1).
Proof.
  revert in_match piece.
  induction text as [|c rest IH]; intros b piece.
  - simpl. rewrite andb_false_r. change (len (@nil char)) with 0. lia.
  - cbn [re_split_sentences_from starts_with_space].
    change (len (c :: rest)) with (len ([c] ++ rest)). rewrite len_app.
    change (len [c]) with 1.
    destruct (b && isspace c) eqn:Hskip.
    + pose proof (IH true piece).
      destruct (true && starts_with_space rest); lia.
    + destruct (is_terminal c && starts_with_space rest) eqn:Hsplit.
      * apply andb_true_iff in Hsplit as [_ Hrest].
        pose proof (IH true []) as H. rewrite Hrest in H. cbn [andb] in H.
        cbn [packed_len fold_right]. fold (packed_len (re_split_sentences_from true [] rest)).
        rewrite len_app. change (len [c]) with 1.
        change (len (@nil char)) with 0 in H. lia.
      * pose proof (IH false (piece ++ [c])) as H. cbn [andb] in H.
        rewrite len_app in H. change (len [c]) with 1 in H. lia.
Qed.

Lemma joined_cons (s : str) (l : list str) :
  joined (s :: l)
  = if truthy (strip s) then (s ++ [space]) ++ joined l else joined l.
Proof. unfold joined. simpl. by destruct (truthy (strip s)). Qed.

Lemma joined_length (l : list str) : len (joined l) <= packed_len l.
Proof.
  induction l as [|s l IH]; [done|]. rewrite joined_cons. simpl.
  pose proof (len_nonneg s).
  destruct (truthy (strip s)); rewrite ?len_app; change (len [space]) with 1; lia.
Qed.

Lemma joined_ends (l : list str) :
  joined l = [] \/ exists x, joined l = x ++ [space].
Proof.
  induction l as [|s l IH]; [by left|]. rewrite joined_cons.
  destruct (truthy (strip s)); [|done]. right.
  destruct IH as [->|[x ->]].
  - exists s. by rewrite app_nil_r.
  - exists ((s ++ [space]) ++ x). by rewrite app_assoc.
Qed.

Lemma sentence_fold_fits (M : Z) (l : list str) (st : chunker) :
  len (current_chunk st) + packed_len l <= M ->
  fold_left (sentence_step M) l st
  = Chunker (chunks st) (current_chunk st ++ joined l).
Proof.
  revert st. induction l as [|s l IH]; intros st Hfit.
  - simpl. rewrite app_nil_r. by destruct st.
  - cbn [fold_left]. rewrite joined_cons. unfold sentence_step at 2.
    cbn [packed_len fold_right] in Hfit. fold (packed_len l) in Hfit.
    pose proof (packed_len_nonneg l). pose proof (len_nonneg s).
    destruct (truthy (strip s)); cbn [negb].
    + destruct (Z.leb_spec (len (current_chunk st) + len s + 1) M) as [_|?];
        [|lia].
      rewrite IH; cbn [chunks current_chunk].
      * by rewrite <- !app_assoc.
      * rewrite !len_app. change (len [space]) with 1. lia.
    + apply IH. lia.
Qed.

(** X13. A text that is not blank and one character shorter than
    [max_chunk_size], or shorter still, comes out of the character-budget
    segmenter as exactly one unit: its sentences that are not blank,
    joined by single spaces, with the same characters in the same order,
    and no longer than the text. *)
Theorem short_text_is_one_unit (text : str) (M : Z) :
  len text + 1 <= M ->
  nonblank text ->
  exists u,
    smart_chunk_text text M = [u] /\
    u = strip (joined (re_split_sentences text)) /\
    non_whitespace u = non_whitespace text /\
    len u <= len text.
Proof.
  intros Hfit Htext.
  pose proof (re_split_sentences_from_packed false [] text) as Hpacked.
  cbn [andb] in Hpacked. change (len (@nil char)) with 0 in Hpacked.
  fold (re_split_sentences text) in Hpacked.
  assert (fold_left (sentence_step M) (re_split_sentences text) chunker_init
          = Chunker [] (joined (re_split_sentences text))) as Hfold.
  { rewrite sentence_fold_fits; [done|].
    change (len (current_chunk chunker_init)) with 0. lia. }
  assert (non_whitespace (joined (re_split_sentences text))
          = non_whitespace text) as Hnw.
  { pose proof (fold_left_flat (sentence_step M) (re_split_sentences text)
                  chunker_init (sentence_step_flat M)) as H.
    rewrite Hfold, re_split_sentences_non_whitespace in H. exact H. }
  exists (strip (joined (re_split_sentences text))).
  unfold smart_chunk_text. rewrite Hfold. unfold final_flush.
  cbn [chunks current_chunk].
  pose proof (joined_length (re_split_sentences text)) as Hlen.
  destruct (joined_ends (re_split_sentences text)) as [Hnil|[x Hx]].
  - rewrite Hnil in Hnw. by destruct Htext.
  - rewrite Hx in *. split.
    + destruct x; done.
    + split; [done|]. split; [by rewrite non_whitespace_strip|].
      rewrite (strip_snoc_space x space eq_refl).
      pose proof (strip_length x). rewrite len_app in Hlen.
      change (len [space]) with 1 in Hlen. lia.
Qed.

(** ** Sentences are kept whole *)

Lemma occurs_in_refl (s : str) : occurs_in s s.
Proof. exists [], []. by rewrite app_nil_r. Qed.

Lemma occurs_in_app_l (s u t : str) : occurs_in s u -> occurs_in s (u ++ t).
Proof. intros (a & b & ->). exists a, (b ++ t). by rewrite <- !app_assoc. Qed.

Lemma occurs_in_app_r (s u t : str) : occurs_in s u -> occurs_in s (t ++ u).
Proof. intros (a & b & ->). exists (t ++ a), b. by rewrite <- !app_assoc. Qed.

Lemma occurs_in_strip_self (s : str) : occurs_in (strip s) s.
Proof.
  destruct (lstrip_suffix s) as [p Hp].
  destruct (rstrip_prefix (lstrip s)) as [q Hq].
  exists p, q. fold (strip s) in Hq. by rewrite <- Hq.
Qed.

Lemma lstrip_app_head (p y : str) (c : char) :
  head y = Some c -> isspace c = false -> lstrip (p ++ y) = lstrip p ++ y.
Proof.
  intros Hy Hc. induction p as [|a p IH]; simpl.
  - destruct y as [|b y]; [done|]. simpl in *. injection Hy as ->. by rewrite Hc.
  - by destruct (isspace a).
Qed.

Lemma rstrip_app_last (y q : str) (c : char) :
  last y = Some c -> isspace c = false -> rstrip (y ++ q) = y ++ rstrip q.
Proof.
  intros Hy Hc. unfold rstrip. rewrite reverse_app.
  rewrite (lstrip_app_head (reverse q) (reverse y) c).
  - by rewrite reverse_app, reverse_involutive.
  - by rewrite head_reverse.
  - done.
Qed.

(** Trimming a string does not cut into a stripped, non-empty run of
    characters inside it. *)
Lemma occurs_in_strip (core x : str) :
  core <> [] -> stripped core -> occurs_in core x -> occurs_in core (strip x).
Proof.
  intros Hne [Hhead Hlast] (a & b & ->).
  destruct (head core) as [h|] eqn:Hh; [|by destruct core].
  destruct (last core) as [l|] eqn:Hl.
  2:{ apply last_None in Hl. done. }
  unfold strip.
  rewrite (lstrip_app_head a (core ++ b) h).
  - rewrite app_assoc.
    rewrite (rstrip_app_last (lstrip a ++ core) b l).
    + exists (lstrip a), (rstrip b). by rewrite <- app_assoc.
    + rewrite last_app, Hl. done.
    + by apply Hlast.
  - destruct core; [done|]. simpl in *. done.
  - by apply Hhead.
Qed.

Lemma strip_nonblank_nonempty (s : str) : nonblank s -> strip s <> [].
Proof. intros H Hnil. by apply strip_nil_blank in Hnil. Qed.

Lemma occurs_in_strip_sentence (s x : str) :
  nonblank s -> occurs_in (strip s) x -> occurs_in (strip s) (strip x).
Proof.
  intros Hs. apply occurs_in_strip;
    [by apply strip_nonblank_nonempty | apply strip_stripped].
Qed.

Lemma kept_whole_flush (st : chunker) (next s : str) :
  nonblank s -> kept_whole st s -> kept_whole (flush_and_restart st next) s.
Proof.
  intros Hs [(u & Hu & Hocc)|Hocc]; left.
  - exists u. split; [|done]. simpl. apply elem_of_app. by left.
  - exists (strip (current_chunk st)). split.
    + simpl. apply elem_of_app. right. by left.
    + by apply occurs_in_strip_sentence.
Qed.

Lemma clause_step_kept_whole M st clause s :
  nonblank s -> kept_whole st s -> kept_whole (clause_step M st clause) s.
Proof.
  intros Hs Hk. unfold clause_step. destruct (_ <=? _).
  - destruct Hk as [H|H]; [by left | right]. simpl. by apply occurs_in_app_l.
  - by apply kept_whole_flush.
Qed.

Lemma sentence_step_kept_whole M st sentence s :
  nonblank s -> kept_whole st s -> kept_whole (sentence_step M st sentence) s.
Proof.
  intros Hs Hk. unfold sentence_step.
  destruct (negb _); [done|].
  destruct (_ <=? _).
  - destruct Hk as [H|H]; [by left | right]. simpl. by apply occurs_in_app_l.
  - destruct (_ >? _).
    + apply (fold_left_invariant (fun st => kept_whole st s)); [done|].
      intros st' c _. by apply clause_step_kept_whole.
    + by apply kept_whole_flush.
Qed.

Lemma sentence_step_keeps_sentence M st s :
  nonblank s -> len s <= M -> kept_whole (sentence_step M st s) s.
Proof.
  intros Hs Hlen. unfold sentence_step.
  apply truthy_strip_nonblank in Hs as Ht. rewrite Ht. cbn [negb].
  assert (occurs_in (strip s) (s ++ [space])) as Hocc.
  { apply occurs_in_app_l, occurs_in_strip_self. }
  destruct (_ <=? _).
  - right. simpl. by apply occurs_in_app_r.
  - destruct (Z.gtb_spec (len s) M) as [?|_]; [lia|]. by right.
Qed.

Lemma final_flush_kept_whole (st : chunker) (s : str) :
  nonblank s -> kept_whole st s ->
  exists u, u ∈ final_flush st /\ occurs_in (strip s) u.
Proof.
  intros Hs [(u & Hu & Hocc)|Hocc]; unfold final_flush.
  - exists u. split; [|done].
    destruct (truthy _); [apply elem_of_app; by left | done].
  - destruct (current_chunk st) as [|c cur] eqn:E.
    + destruct Hocc as (a & b & Hab). symmetry in Hab.
      apply app_eq_nil in Hab as [_ Hab]. apply app_eq_nil in Hab as [Hab _].
      by apply strip_nonblank_nonempty in Hab.
    + cbn [truthy]. exists (strip (c :: cur)). split.
      * apply elem_of_app. right. by left.
      * by apply occurs_in_strip_sentence.
Qed.

(** X15. The character-budget segmenter never breaks a sentence that
    fits: every sentence of the text that is not blank and has at most
    [max_chunk_size] characters lies, trimmed, whole inside one of the
    units. *)
Theorem fitting_sentences_kept_whole (text : str) (M : Z) (s : str) :
  s ∈ re_split_sentences text ->
  nonblank s ->
  len s <= M ->
  exists u, u ∈ smart_chunk_text text M /\ occurs_in (strip s) u.
Proof.
  intros Hin Hs Hlen.
  apply list_elem_of_split in Hin as (l1 & l2 & Hsplit).
  unfold smart_chunk_text. rewrite Hsplit, fold_left_app. cbn [fold_left].
  apply final_flush_kept_whole; [done|].
  apply (fold_left_invariant (fun st => kept_whole st s)).
  - by apply sentence_step_keeps_sentence.
  - intros st s' _. by apply sentence_step_kept_whole.
Qed.

Lemma token_step_kept_whole encode M st sentence s :
  nonblank s -> kept_whole st s -> kept_whole (token_step encode M st sentence) s.
Proof.
  intros Hs Hk. unfold token_step. cbv zeta. destruct (_ <=? _).
  - destruct Hk as [H|H]; [by left | right]. cbn [current_chunk].
    by apply occurs_in_strip_sentence, occurs_in_app_l.
  - destruct Hk as [(u & Hu & Hocc)|Hocc]; left; cbn [chunks].
    + exists u. split; [|done].
      destruct (truthy _); [apply elem_of_app; by left | done].
    + destruct (current_chunk st) as [|c cur] eqn:E.
      * destruct Hocc as (a & b & Hab). symmetry in Hab.
        apply app_eq_nil in Hab as [_ Hab]. apply app_eq_nil in Hab as [Hab _].
        by apply strip_nonblank_nonempty in Hab.
      * cbn [truthy]. exists (strip (c :: cur)). split.
        -- apply elem_of_app. right. by left.
        -- by apply occurs_in_strip_sentence.
Qed.

Lemma token_step_keeps_sentence encode M st s :
  nonblank s -> kept_whole (token_step encode M st s) s.
Proof.
  intros Hs. right. unfold token_step. cbv zeta.
  destruct (_ <=? _); cbn [current_chunk].
  - apply occurs_in_strip_sentence; [done|].
    rewrite app_assoc. apply occurs_in_app_r, occurs_in_strip_self.
  - apply occurs_in_strip_self.
Qed.

(** X16. The token-budget segmenter never breaks a sentence, however
    long: every sentence of the text that is not blank lies, trimmed,
    whole inside one of the units. *)
Theorem token_sentences_kept_whole (encode : tokenizer) (text : str) (M : Z)
  (s : str) :
  s ∈ re_split_sentences text ->
  nonblank s ->
  exists u, u ∈ smart_chunk_text_token_limit encode text M /\
            occurs_in (strip s) u.
Proof.
  intros Hin Hs.
  apply list_elem_of_split in Hin as (l1 & l2 & Hsplit).
  unfold smart_chunk_text_token_limit.
  rewrite Hsplit, fold_left_app. cbn [fold_left].
  apply final_flush_kept_whole; [done|].
  apply (fold_left_invariant (fun st => kept_whole st s)).
  - by apply token_step_keeps_sentence.
  - intros st s' _. by apply token_step_kept_whole.
Qed.

(** ** Concrete runs of the further properties *)

Example generate_long_audio_run :
  generate_long_audio tiny_budget fails_on_third
    (py "One. Two. Three. Four. Five.") speaker_voice_wav "story_chunks"
    story_world
  = (Returned ["story_chunks/chunk_0000.wav"%string;
               "story_chunks/chunk_0001.wav"%string;
               "story_chunks/chunk_0003.wav"%string;
               "story_chunks/chunk_0004.wav"%string],
     World (<["story_chunks/chunk_0004.wav"%string := WavFile (clip (Z.of_N <$> py "Five."))]>
            (<["story_chunks/chunk_0003.wav"%string := WavFile (clip (Z.of_N <$> py "Four."))]>
             (<["story_chunks/chunk_0001.wav"%string := WavFile (clip (Z.of_N <$> py "Two."))]>
              (<["story_chunks/chunk_0000.wav"%string := WavFile (clip (Z.of_N <$> py "One."))]>
               (<["story_chunks"%string := Directory]> (fs story_world))))))
       [MsgProcessingChunk 1 5; MsgProcessingChunk 2 5;
        MsgProcessingChunk 3 5; MsgErrorProcessingChunk 2 SynthesisFailed;
        MsgProcessingChunk 4 5; MsgProcessingChunk 5 5]).
Proof. by vm_compute. Qed.

(** X2, on the story of five sentences in a fresh directory. *)
Lemma synthesis_writes_only_artifacts_witness :
  let files1 := <["story_chunks"%string := Directory]> (fs story_world) in
  makedirs_files "story_chunks" (fs story_world) = (Returned tt, files1) /\
  exists artifacts w',
    generate_long_audio tiny_budget fails_on_third
      (py "One. Two. Three. Four. Five.") speaker_voice_wav "story_chunks"
      story_world
    = (Returned artifacts, w') /\
    is_dir (fs w') "story_chunks" = true.
Proof.
  intros files1.
  assert (makedirs_files "story_chunks" (fs story_world) = (Returned tt, files1))
    as H by reflexivity.
  split; [exact H|].
  destruct (synthesis_writes_only_artifacts tiny_budget fails_on_third
              (py "One. Two. Three. Four. Five.") speaker_voice_wav
              "story_chunks" story_world files1 H)
    as (artifacts & w' & Hrun & Hdir & _).
  exists artifacts, w'. split; [exact Hrun | exact Hdir].
Defined.

(** X3, on the story of five sentences: in a fresh directory, and with a
    regular file where the directory is to be. *)
Lemma synthesis_progress_report_witness :
  let text := py "One. Two. Three. Four. Five." in
  let files1 := <["story_chunks"%string := Directory]> (fs story_world) in
  makedirs_files "story_chunks" (fs story_world) = (Returned tt, files1) /\
  makedirs_files "story_chunks" (fs file_in_the_way_world)
  = (Raised CouldntMakeDirs, fs file_in_the_way_world) /\
  (exists artifacts printed files,
     generate_long_audio tiny_budget fails_on_third text speaker_voice_wav
       "story_chunks" story_world
     = (Returned artifacts, World files (stdout story_world ++ printed)) /\
     List.filter is_progress_line printed
     = (fun k => MsgProcessingChunk (k + 1) (length (segment tiny_budget text)))
         <$> seq 0 (length (segment tiny_budget text)) /\
     (length (List.filter is_synthesis_error_line printed)
      + length artifacts)%nat
     = length (segment tiny_budget text)) /\
  generate_long_audio tiny_budget fails_on_third text speaker_voice_wav
    "story_chunks" file_in_the_way_world
  = (Raised CouldntMakeDirs,
     World (fs file_in_the_way_world) (stdout file_in_the_way_world)).
Proof.
  intros text files1.
  assert (makedirs_files "story_chunks" (fs story_world) = (Returned tt, files1))
    as H1 by reflexivity.
  assert (makedirs_files "story_chunks" (fs file_in_the_way_world)
          = (Raised CouldntMakeDirs, fs file_in_the_way_world)) as H2
    by reflexivity.
  split; [exact H1|]. split; [exact H2|]. split.
  - exact (proj1 (synthesis_progress_report tiny_budget fails_on_third text
                    speaker_voice_wav "story_chunks" story_world) files1 H1).
  - exact (proj2 (synthesis_progress_report tiny_budget fails_on_third text
                    speaker_voice_wav "story_chunks" file_in_the_way_world)
             CouldntMakeDirs (fs file_in_the_way_world) H2).
Defined.

(** X4, on two artifacts that decode and one that is missing: once with
    an output path that can be written, once with one whose directory is
    not there. *)
Lemma assembly_skips_undecodable_witness :
  let audio_files :=
    ["story_chunks/chunk_0000.wav"%string; "story_chunks/chunk_0007.wav"%string;
     "story_chunks/chunk_0001.wav"%string] in
  let track := assemble ideal_pydub 400 [clip [1; 2; 3]; clip [4; 5]] in
  let lines :=
    [MsgCombining; MsgErrorLoading "story_chunks/chunk_0007.wav" CouldntDecode] in
  can_write (fs two_chunk_world) final_story = true /\
  can_write (fs two_chunk_world) "nodir/out.wav" = false /\
  combine_audio_files ideal_pydub 400 audio_files final_story two_chunk_world
  = (Returned final_story,
     World (<[final_story := WavFile track]> (fs two_chunk_world))
       (stdout two_chunk_world ++ lines ++ [MsgFinalSaved final_story])) /\
  combine_audio_files ideal_pydub 400 audio_files "nodir/out.wav" two_chunk_world
  = (Raised CouldntWrite,
     World (fs two_chunk_world) (stdout two_chunk_world ++ lines)).
Proof.
  intros audio_files track lines.
  assert (can_write (fs two_chunk_world) final_story = true) as H1 by reflexivity.
  assert (can_write (fs two_chunk_world) "nodir/out.wav" = false) as H2
    by reflexivity.
  split; [exact H1|]. split; [exact H2|]. split.
  - exact (proj1 (assembly_skips_undecodable ideal_pydub 400 audio_files
                    final_story two_chunk_world) H1).
  - exact (proj2 (assembly_skips_undecodable ideal_pydub 400 audio_files
                    "nodir/out.wav" two_chunk_world) H2).
Defined.

(** X5, on two artifacts that decode and one, between them, that is
    missing, with a library that rounds nothing. *)
Lemma assembled_duration_with_failures_witness :
  within_tolerance ideal_pydub 0 /\
  0 <= 400 /\
  can_write (fs two_chunk_world) final_story = true /\
  exists track w',
    combine_audio_files ideal_pydub 400
      ["story_chunks/chunk_0000.wav"%string; "story_chunks/chunk_0007.wav"%string;
       "story_chunks/chunk_0001.wav"%string]
      final_story two_chunk_world
    = (Returned final_story, w') /\
    fs w' !! final_story = Some (WavFile track) /\
    duration_ms ideal_pydub track = 805.
Proof.
  assert (0 <= 400) as H by lia.
  assert (can_write (fs two_chunk_world) final_story = true) as Hw by reflexivity.
  split; [exact ideal_pydub_exact|]. split; [exact H|]. split; [exact Hw|].
  destruct (assembled_duration_with_failures ideal_pydub 0 400
              ["story_chunks/chunk_0000.wav"%string;
               "story_chunks/chunk_0007.wav"%string;
               "story_chunks/chunk_0001.wav"%string]
              final_story two_chunk_world ideal_pydub_exact H Hw)
    as (track & w' & Hrun & Hfile & Hdur & _).
  exists track, w'. split; [exact Hrun|]. split; [exact Hfile|].
  assert (Z.abs (duration_ms ideal_pydub track - 805) <= 0) as Hexact
    by exact Hdur.
  lia.
Defined.

(** X6, on a machine with no files. *)
Lemma main_without_story_witness :
  fs empty_world !! story_file_path = None /\
  main mac_cpu ideal_pydub fails_on_third empty_world
  = (Raised SystemExit, World ∅ [MsgStoryNotFound]).
Proof.
  assert (fs empty_world !! story_file_path = None) as H by reflexivity.
  split; [exact H|].
  exact (main_without_story mac_cpu ideal_pydub fails_on_third empty_world H).
Defined.

(** X7, on a machine with a story and no voice sample. *)
Lemma main_without_speaker_witness :
  is_Some (fs no_speaker_world !! story_file_path) /\
  fs no_speaker_world !! speaker_voice_wav = None /\
  main main2 ideal_pydub fails_on_third no_speaker_world
  = (Raised SystemExit,
     World (fs no_speaker_world) [MsgSpeakerNotFound; MsgProvideValidWav]).
Proof.
  assert (is_Some (fs no_speaker_world !! story_file_path)) as H1
    by (eexists; reflexivity).
  assert (fs no_speaker_world !! speaker_voice_wav = None) as H2 by reflexivity.
  split; [exact H1|]. split; [exact H2|].
  exact (main_without_speaker main2 ideal_pydub fails_on_third no_speaker_world
           H1 H2).
Defined.

(** X8, on the story of five sentences, of which the third cannot be
    synthesized. *)
Lemma main_assembles_synthesized_units_witness :
  let files1 := <["story_chunks"%string := Directory]> (fs story_world) in
  makedirs_files "story_chunks" (fs story_world) = (Returned tt, files1) /\
  (exists i u a,
     segment tiny_budget (py "One. Two. Three. Four. Five.") !! i = Some u /\
     attempt fails_on_third "story_chunks" files1 i u = Returned a) /\
  is_dir (fs story_world) final_story = false /\
  within_tolerance ideal_pydub 0 /\
  exists track printed w',
    main tiny_budget ideal_pydub fails_on_third story_world = (Returned tt, w') /\
    fs w' !! final_story = Some (WavFile track) /\
    track
    = assemble ideal_pydub 500
        [clip (Z.of_N <$> py "One."); clip (Z.of_N <$> py "Two.");
         clip (Z.of_N <$> py "Four."); clip (Z.of_N <$> py "Five.")] /\
    stdout w' = stdout story_world ++ printed.
Proof.
  intros files1.
  assert (fs story_world !! story_file_path
          = Some (TextFile (py "One. Two. Three. Four. Five."))) as H1
    by reflexivity.
  assert (is_Some (fs story_world !! speaker_voice_wav)) as H2
    by (eexists; reflexivity).
  assert (makedirs_files "story_chunks" (fs story_world) = (Returned tt, files1))
    as H0 by reflexivity.
  assert (exists i u a,
            segment tiny_budget (py "One. Two. Three. Four. Five.") !! i = Some u /\
            attempt fails_on_third "story_chunks" files1 i u = Returned a) as H3.
  { exists O, (py "One."), (clip (Z.of_N <$> py "One.")). split; reflexivity. }
  assert (is_dir (fs story_world) final_story = false) as H5 by reflexivity.
  assert (0 <= silence_ms tiny_budget) as H4 by (simpl; lia).
  split; [exact H0|]. split; [exact H3|]. split; [exact H5|].
  split; [exact ideal_pydub_exact|].
  destruct (main_assembles_synthesized_units tiny_budget ideal_pydub 0
              fails_on_third _ story_world files1 H1 H2 H0 H3 H5
              ideal_pydub_exact H4)
    as (track & printed & w' & Hrun & Hfile & Htrack & _ & Hout & _).
  exists track, printed, w'.
  split; [exact Hrun|]. split; [exact Hfile|]. split; [exact Htrack|].
  exact Hout.
Defined.

Example main_run :
  exists track,
    fs (snd (main tiny_budget ideal_pydub fails_on_third story_world))
      !! final_story = Some (WavFile track) /\
    duration_ms ideal_pydub track = 2018 /\
    stdout (snd (main tiny_budget ideal_pydub fails_on_third story_world))
    = [MsgGenerating;
       MsgProcessingChunk 1 5; MsgProcessingChunk 2 5;
       MsgProcessingChunk 3 5; MsgErrorProcessingChunk 2 SynthesisFailed;
       MsgProcessingChunk 4 5; MsgProcessingChunk 5 5;
       MsgCombining; MsgFinalSaved final_story].
Proof. eexists. split; [by vm_compute|]. split; by vm_compute. Qed.

Example main_run_whole_story :
  exists track,
    fs (snd (main mac_cpu ideal_pydub never_fails story_world)) !! final_story
    = Some (WavFile track) /\
    duration_ms ideal_pydub track = 528 /\
    stdout (snd (main mac_cpu ideal_pydub never_fails story_world))
    = [MsgGenerating; MsgProcessingChunk 1 1;
       MsgCombining; MsgFinalSaved final_story; MsgStoryCreated final_story].
Proof. eexists. split; [by vm_compute|]. split; by vm_compute. Qed.

(** X10, on two sentences and a budget that holds one of them. *)
Lemma token_units_nonblank_witness :
  nonblank (py "One. Two.") /\
  Forall nonblank
    (smart_chunk_text_token_limit framed_char_tokenizer (py "One. Two.") 8).
Proof.
  assert (nonblank (py "One. Two.")) as H by (by vm_compute).
  split; [exact H|].
  exact (token_units_nonblank framed_char_tokenizer (py "One. Two.") 8 H).
Defined.

(** X12, on three sentences of at most six characters and a budget of
    ten. *)
Lemma short_sentences_give_short_units_witness :
  (forall s, s ∈ re_split_sentences (py "One. Two. Three.") -> len s < 10) /\
  Forall (fun u => nonblank u /\ len u < 10)
    (smart_chunk_text (py "One. Two. Three.") 10).
Proof.
  assert (forall s, s ∈ re_split_sentences (py "One. Two. Three.") -> len s < 10)
    as H.
  { intros s Hs. apply list_elem_of_In in Hs. simpl in Hs.
    destruct Hs as [<-|[<-|[<-|[]]]]; reflexivity. }
  split; [exact H|].
  exact (short_sentences_give_short_units (py "One. Two. Three.") 10 H).
Defined.

(** X13, on a text of seventeen characters and the budget of [mac_cpu.py]. *)
Lemma short_text_is_one_unit_witness :
  len (py "Hello world. Bye.") + 1 <= 2400 /\
  nonblank (py "Hello world. Bye.") /\
  exists u,
    smart_chunk_text (py "Hello world. Bye.") 2400 = [u] /\
    u = strip (joined (re_split_sentences (py "Hello world. Bye."))).
Proof.
  assert (len (py "Hello world. Bye.") + 1 <= 2400) as H1 by (by vm_compute).
  assert (nonblank (py "Hello world. Bye.")) as H2 by (by vm_compute).
  split; [exact H1|]. split; [exact H2|].
  destruct (short_text_is_one_unit (py "Hello world. Bye.") 2400 H1 H2)
    as (u & Hu & Hjoin & _).
  exists u. split; [exact Hu | exact Hjoin].
Defined.

(** X14, on a story file of three spaces, with the script of [mac_cpu.py]. *)
Lemma main_on_blank_story_witness :
  let files1 := <["story_chunks"%string := Directory]> (fs blank_story_world) in
  fs blank_story_world !! story_file_path = Some (TextFile (py "   ")) /\
  is_Some (fs blank_story_world !! speaker_voice_wav) /\
  whitespace_only (py "   ") /\
  makedirs_files "story_chunks" (fs blank_story_world) = (Returned tt, files1) /\
  main mac_cpu ideal_pydub fails_on_third blank_story_world
  = (Returned tt, World files1 [MsgGenerating; MsgGenerationFailed]).
Proof.
  intros files1.
  assert (fs blank_story_world !! story_file_path = Some (TextFile (py "   ")))
    as H1 by reflexivity.
  assert (is_Some (fs blank_story_world !! speaker_voice_wav)) as H2
    by (eexists; reflexivity).
  assert (whitespace_only (py "   ")) as H3 by (repeat constructor).
  assert (makedirs_files "story_chunks" (fs blank_story_world)
          = (Returned tt, files1)) as H4 by reflexivity.
  split; [exact H1|]. split; [exact H2|]. split; [exact H3|]. split; [exact H4|].
  exact (proj1 (main_on_blank_story mac_cpu ideal_pydub fails_on_third (py "   ")
                  blank_story_world files1 H1 H2 H3 (or_introl eq_refl) H4)).
Defined.

(** X15, on the first sentence of the sample text with a budget of 20. *)
Lemma fitting_sentences_kept_whole_witness :
  py "Hello world."
    ∈ re_split_sentences
        (py "Hello world. This is a test, with a clause; and more.") /\
  nonblank (py "Hello world.") /\
  len (py "Hello world.") <= 20 /\
  exists u,
    u ∈ smart_chunk_text
          (py "Hello world. This is a test, with a clause; and more.") 20 /\
    occurs_in (strip (py "Hello world.")) u.
Proof.
  assert (py "Hello world."
            ∈ re_split_sentences
                (py "Hello world. This is a test, with a clause; and more."))
    as H1 by (vm_compute; left).
  assert (nonblank (py "Hello world.")) as H2 by (by vm_compute).
  assert (len (py "Hello world.") <= 20) as H3 by (by vm_compute).
  split; [exact H1|]. split; [exact H2|]. split; [exact H3|].
  exact (fitting_sentences_kept_whole _ 20 _ H1 H2 H3).
Defined.

(** X16, on a sentence of 18 tokens with a budget of 10. *)
Lemma token_sentences_kept_whole_witness :
  py "One, two, three." ∈ re_split_sentences (py "One, two, three.") /\
  nonblank (py "One, two, three.") /\
  exists u,
    u ∈ smart_chunk_text_token_limit framed_char_tokenizer
          (py "One, two, three.") 10 /\
    occurs_in (strip (py "One, two, three.")) u.
Proof.
  assert (py "One, two, three." ∈ re_split_sentences (py "One, two, three."))
    as H1 by (vm_compute; left).
  assert (nonblank (py "One, two, three.")) as H2 by (by vm_compute).
  split; [exact H1|]. split; [exact H2|].
  exact (token_sentences_kept_whole framed_char_tokenizer _ 10 _ H1 H2).
Defined.
(** X17, on three spaces with the default budgets. *)
Lemma blank_input_gives_no_units_witness :
  whitespace_only (py "   ") /\
  smart_chunk_text (py "   ") 2400 = [] /\
  smart_chunk_text_token_limit framed_char_tokenizer (py "   ") 400 = [].
Proof.
  assert (whitespace_only (py "   ")) as H by (repeat constructor).
  destruct (blank_input_gives_no_units framed_char_tokenizer (py "   ") 400 H)
    as (_ & _ & _ & Htok).
  destruct (blank_input_gives_no_units framed_char_tokenizer (py "   ") 2400 H)
    as (_ & Hchar & _ & _).
  split; [exact H|]. split; [exact Hchar|].
  apply Htok. by vm_compute.
Defined.

